(** * Chunking and batch ingestion of the semantic-search pipeline

    A shallow embedding of [src/data_processing/text_processor.py] and
    [src/data_processing/embedding_generator.py], followed by the properties
    of the chunking engine and of the embedding / vector-store writer. *)

From Stdlib Require Import ZArith NArith List Ascii String PrimFloat Lia.
From Stdlib Require Import DecimalString.
From Stdlib Require DecimalNat.
From stdpp Require Import base option list strings gmap.

Set Default Proof Using "Type".
Set Warnings "-inexact-float".

(** ** Python values shared by both modules *)

(** A Python [str] is a sequence of Unicode code points. *)
Definition pystr : Type := list N.

(** An ASCII literal of the source, as code points. *)
Definition py (s : string) : pystr := map N_of_ascii (list_ascii_of_string s).
Arguments py : simpl never.

(** Exceptions are identified by their class name. *)
Inductive exn : Type := Exn (name : string).

(** The outcome of a call that may raise. *)
Inductive result (A : Type) : Type :=
| Ok (a : A)
| Raise (e : exn).
Arguments Ok {A} a.
Arguments Raise {A} e.

(** [try: v = body  except: v = handler] with a bare [except]: every
    exception is caught. *)
Definition try_except {A : Type} (body : result A) (handler : A) : A :=
  match body with
  | Ok a => a
  | Raise _ => handler
  end.

(** ** The [str] builtins used by the source *)
Module PyStr.

(** [Py_UNICODE_ISSPACE]: the code points that [str.strip], [str.split]
    and the regular expression class [\s] treat as whitespace. *)
Definition isspace (c : N) : bool :=
  ((9 <=? c) && (c <=? 13) || (28 <=? c) && (c <=? 32)
   || (c =? 133) || (c =? 160) || (c =? 5760)
   || (8192 <=? c) && (c <=? 8202)
   || (c =? 8232) || (c =? 8233) || (c =? 8239) || (c =? 8287)
   || (c =? 12288))%N.

(** Truthiness of a string: [if s:]. *)
Definition truthy (s : pystr) : bool :=
  match s with [] => false | _ :: _ => true end.

Fixpoint lstrip (s : pystr) : pystr :=
  match s with
  | [] => []
  | c :: r => if isspace c then lstrip r else s
  end.

Fixpoint rstrip (s : pystr) : pystr :=
  match s with
  | [] => []
  | c :: r =>
      match rstrip r with
      | [] => if isspace c then [] else [c]
      | r' => c :: r'
      end
  end.

(** [s.strip()] *)
Definition strip (s : pystr) : pystr := rstrip (lstrip s).

(** [s.split()]: the maximal runs of non-whitespace code points. *)
Fixpoint split (s : pystr) : list pystr :=
  match s with
  | [] => []
  | c :: r =>
      if isspace c then split r
      else match r with
           | [] => [[c]]
           | d :: _ =>
               if isspace d then [c] :: split r
               else match split r with
                    | w :: ws => (c :: w) :: ws
                    | [] => [[c]]
                    end
           end
  end.

(** [sep.join(parts)] *)
Fixpoint join (sep : pystr) (parts : list pystr) : pystr :=
  match parts with
  | [] => []
  | p :: ps =>
      match ps with
      | [] => p
      | _ :: _ => p ++ sep ++ join sep ps
      end
  end.

(** [s.replace(old, new)] for a one-character [old]. *)
Definition replace (old : N) (new : pystr) (s : pystr) : pystr :=
  flat_map (fun c => if (c =? old)%N then new else [c]) s.

(** [re.sub(cls+, rep, s)] for a character class [cls] and a one-character
    replacement: every maximal run of [cls] becomes [rep].  With
    [cls = rep = '.'] this is also [re.sub(r'\.{2,}', '.', s)], a run of
    length one being replaced by itself. *)
Fixpoint squeeze (cls : N -> bool) (rep : N) (s : pystr) : pystr :=
  match s with
  | [] => []
  | c :: r =>
      if cls c then
        match r with
        | [] => [rep]
        | d :: _ => if cls d then squeeze cls rep r else rep :: squeeze cls rep r
        end
      else c :: squeeze cls rep r
  end.

(** [re.split(cls+, s)]: the pieces between maximal runs of [cls],
    including the (possibly empty) first and last piece. *)
Fixpoint re_split (cls : N -> bool) (s : pystr) : list pystr :=
  match s with
  | [] => [[]]
  | c :: r =>
      if cls c then
        match r with
        | [] => [[]; []]
        | d :: _ => if cls d then re_split cls r else [] :: re_split cls r
        end
      else match re_split cls r with
           | p :: ps => (c :: p) :: ps
           | [] => [[c]]
           end
  end.

(** [s.lower()], on the code points whose lower case is one of the
    letters of ['unknown']: the ASCII capitals and the Kelvin sign U+212A.
    This is all that the comparison [brand.lower() != 'unknown']
    observes. *)
Definition lower_char (c : N) : N :=
  (if (65 <=? c) && (c <=? 90) then c + 32
   else if c =? 8490 then 107
   else c)%N.

Definition lower (s : pystr) : pystr := map lower_char s.

Fixpoint startswith (s prefix : pystr) {struct prefix} : bool :=
  match prefix, s with
  | [], _ => true
  | _ :: _, [] => false
  | a :: p, b :: r => (a =? b)%N && startswith r p
  end.

(** [sub in s] *)
Fixpoint contains (sub s : pystr) : bool :=
  startswith s sub
  || match s with
     | [] => false
     | _ :: r => contains sub r
     end.

Definition eqb (a b : pystr) : bool := bool_decide (a = b).

(** [str(n)] for a non-negative [int]. *)
Definition str_of_nat (n : nat) : pystr := py (NilZero.string_of_uint (Nat.to_uint n)).

(** [words[start:]] with Python's treatment of a negative start. *)
Definition slice_from {A : Type} (start : Z) (l : list A) : list A :=
  if (start <? 0)%Z
  then drop (Z.to_nat (Z.max 0 (Z.of_nat (length l) + start))) l
  else drop (Z.to_nat start) l.

(** [l[i:j]] for non-negative bounds. *)
Definition slice {A : Type} (i j : nat) (l : list A) : list A :=
  take (j - i) (drop i l).

End PyStr.

(** ** [text_processor.py] *)
Module TextProcessor.
Import PyStr.

(** The record handed to [concatenate_product_text]: a dictionary whose
    keys may be missing.  Text fields hold the value as [str(...)] shows
    it; the price is a float. *)
Record product_row : Type := {
  title : option pystr;
  brand : option pystr;
  category : option pystr;
  description : option pystr;
  price : option float
}.

(** One element of the list returned by [chunk_text]. *)
Record chunk : Type := {
  text : pystr;
  chunk_id : pystr;
  chunk_index : nat;
  word_count : nat;
  product_id : pystr
}.

(** The attributes set by [__init__]. *)
Record TextProcessor : Type := {
  target_chunk_size : Z;
  overlap_size : Z;
  min_chunk_size : Z
}.

Definition init (target_chunk_size overlap_size : Z) : TextProcessor :=
  {| target_chunk_size := target_chunk_size;
     overlap_size := overlap_size;
     min_chunk_size := 50 |}.

(** The currency prefix of the price clause, as the code points of the
    literal in the source file: U+00E2 U+201A U+00B9. *)
Definition currency_prefix : pystr := [226; 8218; 185]%N.

(** [f"{product_id}_chunk_{chunk_index}"] *)
Definition format_chunk_id (product_id : pystr) (chunk_index : nat) : pystr :=
  product_id ++ py "_chunk_" ++ str_of_nat chunk_index.

Definition is_sentence_end (c : N) : bool :=
  ((c =? 46) || (c =? 33) || (c =? 63))%N.

(** The variables of the loop of [chunk_text]; [next_index] is the
    variable [chunk_index] of the source. *)
Record loop_state : Type := {
  chunks : list chunk;
  current_chunk : pystr;
  current_word_count : nat;
  next_index : nat
}.

Section Methods.

(** [format(price)] of a float inside an f-string. *)
Variable float_str : float -> pystr.

(** [nltk.sent_tokenize], which may raise. *)
Variable sent_tokenize : pystr -> result (list pystr).

Variable self : TextProcessor.

Definition concatenate_product_text (product_row : product_row) : pystr :=
  let title := strip (default (py "") (title product_row)) in
  let brand := strip (default (py "unknown") (brand product_row)) in
  let category := strip (default (py "") (category product_row)) in
  let description := strip (default (py "") (description product_row)) in
  let price := default 0%float (price product_row) in
  let concatenated_parts := [] in
  let concatenated_parts :=
    if truthy title
    then concatenated_parts ++ [py "Product: " ++ title]
    else concatenated_parts in
  let concatenated_parts :=
    if truthy brand && negb (eqb (lower brand) (py "unknown"))
    then concatenated_parts ++ [py "Brand: " ++ brand]
    else concatenated_parts in
  let concatenated_parts :=
    if truthy category
    then
      let clean_category := replace 124 (py " > ") (replace 38 (py " and ") category) in
      concatenated_parts ++ [py "Category: " ++ clean_category]
    else concatenated_parts in
  let concatenated_parts :=
    if (0 <? price)%float
    then concatenated_parts ++ [py "Price: " ++ currency_prefix ++ float_str price]
    else concatenated_parts in
  let concatenated_parts :=
    if truthy description
    then concatenated_parts ++ [py "Description: " ++ description]
    else concatenated_parts in
  join (py ". ") concatenated_parts.

Definition _clean_text (text : pystr) : pystr :=
  if negb (truthy text) then py ""
  else
    let text := squeeze isspace 32 text in
    let text := replace 124 (py ". ") text in
    let text := replace 10 (py ". ") text in
    let text := replace 9 (py " ") text in
    let text := squeeze (fun c => (c =? 46)%N) 46 text in
    strip text.

Definition _simple_sentence_split (text : pystr) : list pystr :=
  let sentences := re_split is_sentence_end text in
  map strip (List.filter (fun s => truthy (strip s)) sentences).

Definition _get_overlap (text : pystr) : pystr :=
  if negb (truthy text) then py ""
  else
    let words := split text in
    if (Z.of_nat (length words) >? overlap_size self)%Z
    then join (py " ") (slice_from (- overlap_size self) words)
    else py "".

Definition make_chunk (text product_id : pystr) (chunk_index word_count : nat) : chunk :=
  {| text := text;
     chunk_id := format_chunk_id product_id chunk_index;
     chunk_index := chunk_index;
     word_count := word_count;
     product_id := product_id |}.

(** The test that closes the current chunk before [sentence] is added. *)
Definition exceeds (st : loop_state) (sentence : pystr) : bool :=
  (Z.of_nat (current_word_count st + length (split sentence)) >? target_chunk_size self)%Z
  && truthy (current_chunk st).

(** One iteration of [for sentence in sentences]. *)
Definition loop_body (product_id : pystr) (st : loop_state) (sentence : pystr) : loop_state :=
  let sentence := strip sentence in
  if negb (truthy sentence) then st
  else
    let sentence_words := length (split sentence) in
    if exceeds st sentence then
      let chunks :=
        chunks st ++ [make_chunk (strip (current_chunk st)) product_id
                        (next_index st) (current_word_count st)] in
      let overlap_text := _get_overlap (current_chunk st) in
      let current_chunk :=
        if truthy overlap_text then overlap_text ++ py " " ++ sentence else sentence in
      {| chunks := chunks;
         current_chunk := current_chunk;
         current_word_count := length (split current_chunk);
         next_index := next_index st + 1 |}
    else
      {| chunks := chunks st;
         current_chunk :=
           current_chunk st ++
             (if truthy (current_chunk st) then py " " ++ sentence else sentence);
         current_word_count := current_word_count st + sentence_words;
         next_index := next_index st |}.

Definition loop_init : loop_state :=
  {| chunks := []; current_chunk := py ""; current_word_count := 0; next_index := 0 |}.

Definition run_loop (product_id : pystr) (sentences : list pystr) : loop_state :=
  fold_left (loop_body product_id) sentences loop_init.

(** The guard of the single-chunk path. *)
Definition is_short (text : pystr) : bool :=
  negb (truthy text) || (Z.of_nat (length (strip text)) <? min_chunk_size self)%Z.

(** The value of [sentences] in [chunk_text]. *)
Definition tokenize (text : pystr) : list pystr :=
  let text := _clean_text text in
  try_except (sent_tokenize text) (_simple_sentence_split text).

Definition chunk_text (text product_id : pystr) : list chunk :=
  if is_short text then
    [make_chunk text product_id 0 (if truthy text then length (split text) else 0)]
  else
    let text := _clean_text text in
    let sentences := try_except (sent_tokenize text) (_simple_sentence_split text) in
    let st := run_loop product_id sentences in
    let chunks :=
      if truthy (current_chunk st) && (30 <=? current_word_count st)
      then chunks st ++ [make_chunk (strip (current_chunk st)) product_id
                           (next_index st) (current_word_count st)]
      else chunks st in
    let chunks :=
      match chunks with
      | [] => chunks ++ [make_chunk text product_id 0 (length (split text))]
      | _ :: _ => chunks
      end in
    chunks.

End Methods.

End TextProcessor.


(** ** Calls that raise, and calls on the external store *)

#[global] Instance result_ret : MRet result := fun A a => Ok a.
#[global] Instance result_bind : MBind result := fun A B f m =>
  match m with
  | Ok a => f a
  | Raise e => Raise e
  end.

(** A computation on the state of an external service: it returns or
    raises, and leaves the service in a new state either way. *)
Definition io (store A : Type) : Type := store -> result A * store.

#[global] Instance io_ret {store : Type} : MRet (io store) := fun A a s => (Ok a, s).
#[global] Instance io_bind {store : Type} : MBind (io store) := fun A B f m s =>
  match m s with
  | (Ok a, s') => f a s'
  | (Raise e, s') => (Raise e, s')
  end.

(** [try: body  except: handler], bare [except]. *)
Definition io_try {store A : Type} (body handler : io store A) : io store A :=
  fun s =>
    match body s with
    | (Ok a, s') => (Ok a, s')
    | (Raise _, s') => handler s'
    end.

(** [for x in xs: state = body(state, x)] *)
Fixpoint for_in {M : Type -> Type} `{!MRet M, !MBind M} {A S : Type}
    (xs : list A) (body : S -> A -> M S) (state : S) : M S :=
  match xs with
  | [] => mret state
  | x :: xs' => state' ← body state x; for_in xs' body state'
  end.

(** [range(start, stop, step)] for a non-zero step. *)
Definition range (start stop step : Z) : list Z :=
  let count :=
    if (0 <? step)%Z then ((stop - start + step - 1) / step)%Z
    else ((start - stop - step - 1) / (- step))%Z in
  (fun k => (start + Z.of_nat k * step)%Z) <$> seq 0 (Z.to_nat count).

(** ** [embedding_generator.py] *)
Module EmbeddingGenerator.
Import PyStr.

(** One row of [chunks_df]. *)
Record chunk_row : Type := {
  chunk_id : pystr;
  chunk_index : nat;
  text : pystr;
  word_count : nat;
  product_id : pystr;
  original_title : pystr;
  brand : pystr;
  category : pystr;
  price : float;
  availability : bool
}.

(** The construction parameters passed to [create_collection]. *)
Record hnsw_config : Type := {
  hnsw_space : string;
  hnsw_construction_ef : Z;
  hnsw_M : Z
}.

Definition cosine_config : hnsw_config :=
  {| hnsw_space := "cosine"; hnsw_construction_ef := 200; hnsw_M := 16 |}.

(** [str(b)] for a [bool]. *)
Definition str_of_bool (b : bool) : pystr := if b then py "True" else py "False".

Section Generator.

(** The vectors returned by the embedding model. *)
Variable vector : Type.

(** [self.model.encode(batch, normalize_embeddings=True, ...)], which may
    raise. *)
Variable encode : list pystr -> result (list vector).

(** [str(price)] of a float. *)
Variable float_str : float -> pystr.

(** The keyword arguments of one [collection.add] call. *)
Record add_args : Type := {
  embeddings : list vector;
  documents : list pystr;
  metadatas : list (gmap string pystr);
  ids : list pystr
}.

(** The calls made on [self.client] and on the collection it returns.  A
    collection handle is the name it was created under. *)
Record client (store : Type) : Type := {
  get_collection : pystr -> io store unit;
  delete_collection : pystr -> io store unit;
  client_create_collection : pystr -> hnsw_config -> io store pystr;
  collection_add : pystr -> add_args -> io store unit
}.
Arguments get_collection {store}.
Arguments delete_collection {store}.
Arguments client_create_collection {store}.
Arguments collection_add {store}.

Definition generate_embeddings (texts : list pystr) (batch_size : Z) : result (list vector) :=
  if (batch_size =? 0)%Z then Raise (Exn "ZeroDivisionError")
  else
    for_in (range 0 (Z.of_nat (length texts)) batch_size)
      (fun embeddings i =>
         let batch := slice (Z.to_nat i) (Z.to_nat (i + batch_size)) texts in
         batch_embeddings ← encode batch;
         mret (embeddings ++ batch_embeddings))
      [].

Definition row_metadata (row : chunk_row) : gmap string pystr :=
  list_to_map
    [("product_id", product_id row);
     ("chunk_index", str_of_nat (chunk_index row));
     ("word_count", str_of_nat (word_count row));
     ("brand", brand row);
     ("category", category row);
     ("price", float_str (price row));
     ("availability", str_of_bool (availability row));
     ("title", take 100 (original_title row))].

(** The arguments of the [collection.add] calls of [store_embeddings], in
    the order of the calls. *)
Definition write_batches (chunks_df : list chunk_row) (embeddings : list vector) : list add_args :=
  let ids := chunk_id <$> chunks_df in
  let documents := text <$> chunks_df in
  let metadatas := row_metadata <$> chunks_df in
  let batch_size := 100 in
  (fun i =>
     let i := Z.to_nat i in
     let end_idx := min (i + batch_size) (length ids) in
     {| embeddings := slice i end_idx embeddings;
        documents := slice i end_idx documents;
        metadatas := slice i end_idx metadatas;
        ids := slice i end_idx ids |})
  <$> range 0 (Z.of_nat (length ids)) (Z.of_nat batch_size).

Section Client.

Variable store : Type.
Variable self_client : client store.

Definition reset_collection (collection_name : pystr) : io store unit :=
  io_try
    (existing_collection ← get_collection self_client collection_name;
     delete_collection self_client collection_name)
    (mret tt).

Definition create_collection (collection_name : pystr) : io store pystr :=
  _ ← reset_collection collection_name;
  client_create_collection self_client collection_name cosine_config.

Definition store_embeddings (chunks_df : list chunk_row) (embeddings : list vector)
    (collection_name : pystr) : io store pystr :=
  collection ← create_collection collection_name;
  _ ← for_in (write_batches chunks_df embeddings)
        (fun _ batch => collection_add self_client collection batch) tt;
  mret collection.

End Client.

(** *** The vector store

    A model of the store behind [chromadb.PersistentClient], after the
    capability surface the specification lists: named collections, each a
    sequence of (id, vector, document, metadata) entries. *)

Record entry : Type := {
  entry_id : pystr;
  entry_embedding : vector;
  entry_document : pystr;
  entry_metadata : gmap string pystr
}.

Record collection : Type := {
  collection_config : hnsw_config;
  collection_entries : list entry
}.

Definition batch_entries (batch : add_args) : list entry :=
  zip_with (fun p q => {| entry_id := p.1; entry_embedding := p.2;
                          entry_document := q.1; entry_metadata := q.2 |})
    (zip (ids batch) (embeddings batch))
    (zip (documents batch) (metadatas batch)).

Definition same_lengths (batch : add_args) : bool :=
  (length (embeddings batch) =? length (ids batch))
  && (length (documents batch) =? length (ids batch))
  && (length (metadatas batch) =? length (ids batch)).

(** [get_collection] and [delete_collection] raise when there is no such
    collection, [create_collection] when there is one already.  [add]
    rejects an empty batch, arrays of different lengths and an id given
    twice in the batch; an id the collection already holds is skipped. *)
Definition chroma : client (gmap pystr collection) :=
  {| get_collection := fun name s =>
       match s !! name with
       | Some _ => (Ok tt, s)
       | None => (Raise (Exn "NotFoundError"), s)
       end;
     delete_collection := fun name s =>
       match s !! name with
       | Some _ => (Ok tt, delete name s)
       | None => (Raise (Exn "NotFoundError"), s)
       end;
     client_create_collection := fun name config s =>
       match s !! name with
       | Some _ => (Raise (Exn "UniqueConstraintError"), s)
       | None =>
           (Ok name, <[name := {| collection_config := config; collection_entries := [] |}]> s)
       end;
     collection_add := fun name batch s =>
       match s !! name with
       | None => (Raise (Exn "NotFoundError"), s)
       | Some c =>
           if (length (ids batch) =? 0) || negb (same_lengths batch) then
             (Raise (Exn "ValueError"), s)
           else if bool_decide (NoDup (ids batch)) then
             let known := entry_id <$> collection_entries c in
             let fresh := List.filter (fun e => bool_decide (entry_id e ∉ known))
                            (batch_entries batch) in
             (Ok tt, <[name := {| collection_config := collection_config c;
                                  collection_entries := collection_entries c ++ fresh |}]> s)
           else (Raise (Exn "DuplicateIDError"), s)
       end |}.

End Generator.

Arguments embeddings {vector}.
Arguments documents {vector}.
Arguments metadatas {vector}.
Arguments ids {vector}.
Arguments get_collection {vector store}.
Arguments delete_collection {vector store}.
Arguments client_create_collection {vector store}.
Arguments collection_add {vector store}.
Arguments generate_embeddings {vector}.
Arguments write_batches {vector}.
Arguments reset_collection {vector store}.
Arguments create_collection {vector store}.
Arguments store_embeddings {vector} float_str {store}.
Arguments entry_id {vector}.
Arguments entry_embedding {vector}.
Arguments entry_document {vector}.
Arguments entry_metadata {vector}.
Arguments collection_config {vector}.
Arguments collection_entries {vector}.
Arguments batch_entries {vector}.
Arguments same_lengths {vector}.
Arguments chroma {vector}.

End EmbeddingGenerator.

(** ** The callers: [process_dataframe] and [process_chunks_to_embeddings] *)
Module Pipeline.
Import PyStr.

(** One row of the product table handed to [process_dataframe]. *)
Record product : Type := {
  product_id : pystr;
  title : pystr;
  description : pystr;
  brand : pystr;
  category : pystr;
  price : float;
  availability : bool
}.

(** [row.to_dict()], as [concatenate_product_text] reads it. *)
Definition to_dict (row : product) : TextProcessor.product_row :=
  {| TextProcessor.title := Some (title row);
     TextProcessor.brand := Some (brand row);
     TextProcessor.category := Some (category row);
     TextProcessor.description := Some (description row);
     TextProcessor.price := Some (price row) |}.

(** [{**chunk, 'original_title': row['title'], ...}] *)
Definition chunk_data (row : product) (chunk : TextProcessor.chunk) : EmbeddingGenerator.chunk_row :=
  {| EmbeddingGenerator.chunk_id := TextProcessor.chunk_id chunk;
     EmbeddingGenerator.chunk_index := TextProcessor.chunk_index chunk;
     EmbeddingGenerator.text := TextProcessor.text chunk;
     EmbeddingGenerator.word_count := TextProcessor.word_count chunk;
     EmbeddingGenerator.product_id := TextProcessor.product_id chunk;
     EmbeddingGenerator.original_title := title row;
     EmbeddingGenerator.brand := brand row;
     EmbeddingGenerator.category := category row;
     EmbeddingGenerator.price := price row;
     EmbeddingGenerator.availability := availability row |}.

Section TextStage.

Variable float_str : float -> pystr.
Variable sent_tokenize : pystr -> result (list pystr).
Variable self : TextProcessor.TextProcessor.

(** The rows appended to [all_chunks] for one product. *)
Definition product_chunks (row : product) : list EmbeddingGenerator.chunk_row :=
  let concatenated_text := TextProcessor.concatenate_product_text float_str (to_dict row) in
  let chunks :=
    TextProcessor.chunk_text sent_tokenize self concatenated_text (product_id row) in
  chunk_data row <$> chunks.

(** [TextProcessor.process_dataframe].  The statistics read the column
    [word_count] of the new frame, which a frame built from an empty list
    does not have: [KeyError]. *)
Definition process_dataframe (df : list product) : result (list EmbeddingGenerator.chunk_row) :=
  let all_chunks := flat_map product_chunks df in
  match all_chunks with
  | [] => Raise (Exn "KeyError")
  | _ :: _ => Ok all_chunks
  end.

End TextStage.

(** A call that raises or returns, made from a computation on the store. *)
Definition lift {store A : Type} (r : result A) : io store A := fun s => (r, s).

Section EmbeddingStage.

Context {vector store : Type}.
Variable encode : list pystr -> result (list vector).
Variable float_str : float -> pystr.
Variable self_client : EmbeddingGenerator.client vector store.

(** [collection.count()] *)
Variable collection_count : pystr -> io store nat.

(** [EmbeddingGenerator.process_chunks_to_embeddings].  The report of the
    average time divides by [len(texts)]: [ZeroDivisionError] for an empty
    frame, whatever the elapsed time. *)
Definition process_chunks_to_embeddings (chunks_df : list EmbeddingGenerator.chunk_row)
    : io store pystr :=
  let texts := EmbeddingGenerator.text <$> chunks_df in
  embeddings ← lift (EmbeddingGenerator.generate_embeddings encode texts 32);
  _ ← lift (if length texts =? 0 then Raise (Exn "ZeroDivisionError") else Ok tt);
  collection ← EmbeddingGenerator.store_embeddings float_str self_client chunks_df embeddings
                  (py "product_embeddings");
  stored_count ← collection_count collection;
  mret collection.

End EmbeddingStage.

(** [collection.count()] on the model store. *)
Definition chroma_count {vector : Type} (name : pystr)
    : io (gmap pystr (EmbeddingGenerator.collection vector)) nat :=
  fun s =>
    match s !! name with
    | Some c => (Ok (length (EmbeddingGenerator.collection_entries c)), s)
    | None => (Raise (Exn "NotFoundError"), s)
    end.

End Pipeline.

(** ** [data_loader.py]: the field validators of [ProductSchema] *)
Module ProductSchema.
Import PyStr.

Definition validate_title (v : pystr) : result pystr :=
  if negb (truthy v) || (length (strip v) <? 5) then Raise (Exn "ValueError")
  else
    let v := if 200 <? length v then take 200 v else v in
    Ok (strip v).

Definition validate_description (v : pystr) : pystr :=
  if negb (truthy v) then py "No description available"
  else
    let v := if 1000 <? length v then take 1000 v else v in
    strip v.

End ProductSchema.

(** ** [data_loader.py]: [DataLoader.normalize_category] *)
Module DataLoader.
Import PyStr.

(** [self.category_mapping], in the order of the dict literal, which is
    the order the loop over [items()] visits. *)
Definition category_mapping : list (pystr * pystr) :=
  [(py "computers&accessories", py "electronics/computers");
   (py "electronics", py "electronics/general");
   (py "home&kitchen", py "home/kitchen");
   (py "toys&games", py "toys/games");
   (py "clothing&accessories", py "fashion/clothing");
   (py "sports&outdoors", py "sports/outdoor");
   (py "books", py "books/general");
   (py "beauty&personalcare", py "beauty/personal-care");
   (py "automotive", py "automotive/general");
   (py "health&wellness", py "health/wellness")].

Definition category_cols : list pystr :=
  [py "category"; py "main_category"; py "product_category"; py "subcategory"].

(** The class [[|,&\-\s]] of the regular expression. *)
Definition is_category_sep (c : N) : bool :=
  ((c =? 124) || (c =? 44) || (c =? 38) || (c =? 45))%N || isspace c.

Section NormalizeCategory.

(** [str.lower], on all of Unicode. *)
Variable str_lower : pystr -> pystr.

(** A row of the frame: the labels of [row.index], each with [str] of its
    value, or [None] where [pd.notna] is false. *)
Implicit Types row : gmap pystr (option pystr).

(** The loop over [category_cols], left at the first column that is in
    the row with a value. *)
Fixpoint find_category row (cols : list pystr) : option pystr :=
  match cols with
  | [] => None
  | col :: cols =>
      match row !! col with
      | Some (Some v) => Some (str_lower (strip v))
      | _ => find_category row cols
      end
  end.

(** The loop over [self.category_mapping.items()], left at the first key
    that occurs in the category. *)
Fixpoint apply_mapping (category : pystr) (mapping : list (pystr * pystr)) : option pystr :=
  match mapping with
  | [] => None
  | (key, value) :: mapping =>
      if contains key category then Some value else apply_mapping category mapping
  end.

Definition category_parts (category : pystr) : list pystr :=
  let parts := re_split is_category_sep category in
  take 3 (map strip (List.filter (fun part => truthy (strip part)) parts)).

Definition normalize_category row : pystr :=
  match find_category row category_cols with
  | None => py "general/uncategorized"
  | Some category =>
      if negb (truthy category) then py "general/uncategorized"
      else
        match apply_mapping category category_mapping with
        | Some value => value
        | None =>
            let parts := category_parts category in
            match parts with
            | [] => py "general/uncategorized"
            | _ :: _ => join (py "/") parts
            end
        end
  end.

End NormalizeCategory.

End DataLoader.

(** ** Concrete inputs *)
Module Examples.
Import PyStr TextProcessor.

(** The NLTK data is missing: [sent_tokenize] raises and the regular
    expression split is used. *)
Definition nltk_unavailable (text : pystr) : result (list pystr) :=
  Raise (Exn "LookupError").

(** What [sent_tokenize] returns for a text that is one sentence. *)
Definition one_sentence (text : pystr) : result (list pystr) := Ok [text].

(** What [sent_tokenize] returns for a text made of the two given
    sentences. *)
Definition two_sentences (first second : pystr) (text : pystr) : result (list pystr) :=
  Ok [first; second].

(** [TextProcessor()] with the defaults of the settings module. *)
Definition default_processor : TextProcessor := init 125 25.

(** [n] times the word [w], separated by single spaces. *)
Definition words_of (w : pystr) (n : nat) : pystr := join (py " ") (repeat w n).

(** The record of the assembling example: a forty-letter description. *)
Definition mouse_row : product_row :=
  {| title := Some (py "Wireless Mouse");
     brand := Some (py "acme");
     category := Some (py "electronics|computers");
     description := Some (repeat 65%N 40);
     price := Some 19.99%float |}.

(** Eleven words, 74 characters, a doubled space after "with". *)
Definition eleven_words : pystr :=
  py "wireless optical mouse with  usb receiver and two spare batteries included".

(** A sentence of 124 words followed by a sentence of two. *)
Definition long_sentence : pystr := words_of (py "sturdy") 123 ++ py " build.".
Definition tail_sentence : pystr := py "Tiny end.".
Definition trailing_text : pystr := long_sentence ++ py " " ++ tail_sentence.

(** A sentence of 25 words followed by a sentence of 101. *)
Definition sentence_25 : pystr := words_of (py "compact") 24 ++ py " design.".
Definition sentence_101 : pystr := words_of (py "sturdy") 100 ++ py " build.".
Definition boundary_text : pystr := sentence_25 ++ py " " ++ sentence_101.

(** Forty words in one sentence. *)
Definition forty_words : pystr := words_of (py "sturdy") 39 ++ py " build.".

End Examples.

Module StoreExamples.
Import PyStr EmbeddingGenerator.

(** A stand-in for the embedding model: the vector of a text is its
    length, and a batch is encoded text by text. *)
Definition length_encoder (batch : list pystr) : result (list nat) :=
  Ok (length <$> batch).

(** A stand-in for [str] on floats, as far as the sample rows need it. *)
Definition price_str (price : float) : pystr := py "19.99".

(** The only chunk of product [n]. *)
Definition sample_row (n : nat) : chunk_row :=
  {| chunk_id := py "P" ++ str_of_nat n ++ py "_chunk_0";
     chunk_index := 0;
     text := py "Product: Wireless Mouse";
     word_count := 3;
     product_id := py "P" ++ str_of_nat n;
     original_title := py "Wireless Mouse";
     brand := py "acme";
     category := py "electronics/computers";
     price := 19.99%float;
     availability := true |}.

Definition sample_rows (n : nat) : list chunk_row := sample_row <$> seq 0 n.

(** A store left by an earlier run: the collection holds one entry. *)
Definition stale_store : gmap pystr (collection nat) :=
  {[ py "product_embeddings" :=
       {| collection_config := cosine_config;
          collection_entries :=
            [ {| entry_id := py "P9_chunk_0";
                 entry_embedding := 7;
                 entry_document := py "Product: Old Keyboard";
                 entry_metadata := ∅ |} ] |} ]}.

End StoreExamples.

(** ** Vocabulary of the statements *)
Module Vocabulary.
Import PyStr.

(** A string is [stripped] when it is non-empty and [strip] leaves it
    alone: it starts and ends with a non-whitespace code point. *)
Definition stripped (s : pystr) : Prop :=
  s <> [] /\ lstrip s = s /\ rstrip s = s.

(** [sub] occurs in [s] as a contiguous substring. *)
Definition infix (sub s : pystr) : Prop :=
  exists a b, s = a ++ sub ++ b.

(** The sentences that reach the body of the loop of [chunk_text]: each
    one stripped, the empty ones skipped. *)
Definition loop_sentences (sentences : list pystr) : list pystr :=
  List.filter truthy (map strip sentences).

(** The chunks carry the indices [0, 1, 2, ...] and the identifiers
    derived from them. *)
Definition well_indexed (product_id : pystr) (cs : list TextProcessor.chunk) : Prop :=
  map TextProcessor.chunk_index cs = seq 0 (length cs) /\
  Forall (fun c => TextProcessor.chunk_id c =
                   product_id ++ py "_chunk_" ++ str_of_nat (TextProcessor.chunk_index c)) cs.

Definition index_inv (product_id : pystr) (st : TextProcessor.loop_state) : Prop :=
  TextProcessor.next_index st = length (TextProcessor.chunks st) /\
  well_indexed product_id (TextProcessor.chunks st).

(** [s] lies in a closed chunk or in the buffer. *)
Definition covered (s : pystr) (st : TextProcessor.loop_state) : Prop :=
  (exists c, c ∈ TextProcessor.chunks st /\ infix s (TextProcessor.text c))
  \/ infix s (TextProcessor.current_chunk st).

(** The specification's words for the buffer opened after a split: the
    last [overlap_words] words of the closed chunk's text, then the
    sentence that triggered the split. *)
Definition last_words (n : nat) (words : list pystr) : list pystr :=
  drop (length words - n) words.

Definition overlap_seed (overlap_words : nat) (closed_text sentence : pystr) : pystr :=
  join (py " ") (last_words overlap_words (split closed_text)) ++ py " " ++ sentence.

(** The number of iterations of [range(0, n, b)]. *)
Definition batch_count (n b : nat) : nat := (n + b - 1) / b.

Section Entries.
Import EmbeddingGenerator.

Context {vector : Type}.
Variable float_str : float -> pystr.

(** The entry the store should hold for a row and its vector. *)
Definition row_entry (row : chunk_row) (v : vector) : entry vector :=
  {| entry_id := chunk_id row;
     entry_embedding := v;
     entry_document := text row;
     entry_metadata := row_metadata float_str row |}.

Definition row_entries (chunks_df : list chunk_row) (embeddings : list vector) : list (entry vector) :=
  zip_with row_entry chunks_df embeddings.

(** Some rows and their vectors, as the arguments of one [add] call. *)
Definition batch_of (rows : list chunk_row) (vs : list vector) : add_args vector :=
  {| embeddings := vs;
     documents := text <$> rows;
     metadatas := row_metadata float_str <$> rows;
     ids := chunk_id <$> rows |}.

(** Every entry of the named collection was written by one of the
    given calls. *)
Definition written_by (batches : list (add_args vector)) (name : pystr)
    (s : gmap pystr (collection vector)) : Prop :=
  forall c e, s !! name = Some c -> e ∈ collection_entries c ->
    exists b, b ∈ batches /\ e ∈ batch_entries b.

End Entries.

End Vocabulary.
Import Vocabulary.

(** ** Further vocabulary *)
Module Vocabulary2.
Import PyStr.

(** A word: non-empty and free of whitespace. *)
Definition is_word (w : pystr) : Prop :=
  w <> [] /\ Forall (fun c => isspace c = false) w.

(** No two neighbouring code points both satisfy [cls]. *)
Fixpoint no_run (cls : N -> bool) (s : pystr) : Prop :=
  match s with
  | [] => True
  | c :: r =>
      match r with
      | [] => True
      | d :: _ => (cls c && cls d = false) /\ no_run cls r
      end
  end.

(** The total number of words of some sentences. *)
Definition total_words (sentences : list pystr) : nat :=
  foldr (fun s n => length (split s) + n) 0 sentences.

End Vocabulary2.
Import Vocabulary2.

Module Vocabulary3.
Import PyStr TextProcessor.

(** The buffer of the loop is consistent with its word count and has no
    surrounding whitespace. *)
Definition buffer_ok (st : loop_state) : Prop :=
  current_word_count st = length (split (current_chunk st)) /\
  (current_chunk st = [] \/ stripped (current_chunk st)).

(** A chunk closed by the loop: its count is that of its text, it belongs
    to the product, and its text is non-empty without surrounding
    whitespace. *)
Definition chunk_ok (product_id : pystr) (c : chunk) : Prop :=
  word_count c = length (split (text c)) /\
  TextProcessor.product_id c = product_id /\
  stripped (text c).

(** [next] begins with the last [overlap] words of [prev], when [prev] has
    more words than that. *)
Definition overlaps (overlap : nat) (prev next : pystr) : Prop :=
  overlap < length (split prev) ->
  exists rest, next = join (py " ") (last_words overlap (split prev)) ++ py " " ++ rest.

(** [R] holds between each element and the next one. *)
Fixpoint chain {A : Type} (R : A -> A -> Prop) (l : list A) : Prop :=
  match l with
  | [] => True
  | a :: r =>
      match r with
      | [] => True
      | b :: _ => R a b /\ chain R r
      end
  end.

End Vocabulary3.
Import Vocabulary3.

Module Vocabulary4.

(** An ASCII decimal digit. *)
Definition is_digit (c : N) : Prop := (48 <= c <= 57)%N.

End Vocabulary4.
Import Vocabulary4.

Module Vocabulary5.
Section Batches.
Import PyStr EmbeddingGenerator.

Context {vector : Type}.
Variable float_str : float -> pystr.

(** The [k]-th call of [store_embeddings], whatever the number of
    vectors. *)
Definition kth_batch (chunks_df : list chunk_row) (embs : list vector) (k : nat)
    : add_args vector :=
  batch_of float_str (take 100 (drop (k * 100) chunks_df))
    (take (min 100 (length chunks_df - k * 100)) (drop (k * 100) embs)).

End Batches.
End Vocabulary5.
Import Vocabulary5.

(** ** Further concrete inputs *)
Module Examples2.
Import PyStr TextProcessor Examples.

(** Three sentences of sixty words each. *)
Definition sixty_words : pystr := words_of (py "sturdy") 59 ++ py " build.".
Definition three_sixties : pystr :=
  sixty_words ++ py " " ++ sixty_words ++ py " " ++ sixty_words.

(** The chunks of that text when the regular expression split is used:
    one of 120 words, then one of 25 + 60. *)
Definition three_sixties_chunks : list chunk :=
  chunk_text nltk_unavailable default_processor three_sixties (py "P1").

Definition no_chunk : chunk :=
  {| text := []; chunk_id := []; chunk_index := 0; word_count := 0; product_id := [] |}.

(** A processor without overlap. *)
Definition no_overlap_processor : TextProcessor := init 125 0.

End Examples2.

Module Examples3.
Import PyStr Examples StoreExamples.

(** A model that refuses a batch holding an empty text. *)
Definition fussy_encoder (batch : list pystr) : result (list nat) :=
  if existsb (fun t => length t =? 0) batch then Raise (Exn "ValueError")
  else Ok (length <$> batch).

(** A product table of two rows. *)
Definition mouse : Pipeline.product :=
  {| Pipeline.product_id := py "B01";
     Pipeline.title := py "Wireless Mouse";
     Pipeline.description := py "Compact optical mouse. Two spare batteries included.";
     Pipeline.brand := py "acme";
     Pipeline.category := py "electronics/computers";
     Pipeline.price := 19.99%float;
     Pipeline.availability := true |}.

Definition cable : Pipeline.product :=
  {| Pipeline.product_id := py "B02";
     Pipeline.title := py "Charging Cable";
     Pipeline.description := py "Braided cable, one metre.";
     Pipeline.brand := py "unknown";
     Pipeline.category := py "electronics/general";
     Pipeline.price := 19.99%float;
     Pipeline.availability := true |}.

Definition sample_frame : list Pipeline.product := [mouse; cable].

(** The rows [process_dataframe] makes of that table when the regular
    expression split is used. *)
Definition sample_frame_rows : list EmbeddingGenerator.chunk_row :=
  flat_map (Pipeline.product_chunks price_str nltk_unavailable default_processor) sample_frame.

End Examples3.

Module StoreExamples2.
Import PyStr EmbeddingGenerator StoreExamples.

(** A chunk of another text that carries the chunk id of [sample_row 0]. *)
Definition repeated_row : chunk_row :=
  {| chunk_id := chunk_id (sample_row 0);
     chunk_index := 0;
     text := py "Product: Wireless Keyboard";
     word_count := 3;
     product_id := product_id (sample_row 0);
     original_title := py "Wireless Keyboard";
     brand := py "acme";
     category := py "electronics/computers";
     price := 19.99%float;
     availability := true |}.

(** A chunk set of 101 rows, two [add] calls: the only row of the second
    call repeats the id of the first row of the first call. *)
Definition repeated_rows : list chunk_row := sample_rows 100 ++ [repeated_row].

End StoreExamples2.
(** ** Facts about the string builtins *)
Section PyStrFacts.
Import PyStr.

Lemma truthy_true (s : pystr) : truthy s = true <-> s <> [].
Proof. destruct s; simpl; split; congruence. Qed.

Lemma truthy_false (s : pystr) : truthy s = false <-> s = [].
Proof. destruct s; simpl; split; congruence. Qed.

Lemma lstrip_head (s : pystr) c r : lstrip s = c :: r -> isspace c = false.
Proof.
  induction s as [|x s IH]; simpl; [discriminate|].
  destruct (isspace x) eqn:Hx; [exact IH|].
  intros [= -> _]. exact Hx.
Qed.

Lemma lstrip_cons_nonspace c r : isspace c = false -> lstrip (c :: r) = c :: r.
Proof. intros H. simpl. now rewrite H. Qed.

Lemma rstrip_nil_head c r : rstrip (c :: r) = [] -> isspace c = true /\ rstrip r = [].
Proof.
  simpl. destruct (rstrip r); [|discriminate].
  destruct (isspace c); [auto|discriminate].
Qed.

Lemma rstrip_head c r d r' : rstrip (c :: r) = d :: r' -> d = c.
Proof.
  simpl. destruct (rstrip r).
  - destruct (isspace c); [discriminate|]. now intros [= <- _].
  - now intros [= <- _].
Qed.

Lemma rstrip_idem (s : pystr) : rstrip (rstrip s) = rstrip s.
Proof.
  induction s as [|c s IH]; [reflexivity|].
  simpl. destruct (rstrip s) as [|d r'] eqn:E.
  - destruct (isspace c) eqn:Hc; [reflexivity|]. simpl. now rewrite Hc.
  - change (rstrip (c :: d :: r')) with
      (match rstrip (d :: r') with
       | [] => if isspace c then [] else [c]
       | x :: r0 => c :: x :: r0
       end).
    now rewrite IH.
Qed.

Lemma rstrip_app (s b : pystr) :
  rstrip (s ++ b) = match rstrip b with [] => rstrip s | _ :: _ => s ++ rstrip b end.
Proof.
  induction s as [|c s IH]; simpl.
  - now destruct (rstrip b).
  - rewrite IH. destruct (rstrip b); [reflexivity|].
    now destruct s.
Qed.

Lemma strip_idem_l (s : pystr) : lstrip (strip s) = strip s.
Proof.
  unfold strip. destruct (lstrip s) as [|c r] eqn:E; [reflexivity|].
  pose proof (lstrip_head _ _ _ E) as Hc.
  destruct (rstrip (c :: r)) as [|d r'] eqn:E'; [reflexivity|].
  apply rstrip_head in E' as ->. now apply lstrip_cons_nonspace.
Qed.

Lemma strip_stripped (s : pystr) : strip s <> [] -> stripped (strip s).
Proof.
  intros H. split; [exact H|]. split; [apply strip_idem_l|].
  unfold strip. apply rstrip_idem.
Qed.

Lemma stripped_head (s : pystr) :
  stripped s -> exists c r, s = c :: r /\ isspace c = false.
Proof.
  intros (Hne & Hl & _). destruct s as [|c r]; [congruence|].
  exists c, r. split; [reflexivity|].
  simpl in Hl. destruct (isspace c) eqn:Hc; [|reflexivity].
  apply lstrip_head in Hl. congruence.
Qed.

Lemma stripped_strip (s : pystr) : stripped s -> strip s = s.
Proof. intros (_ & Hl & Hr). unfold strip. now rewrite Hl. Qed.

(** Stripping the surrounding text keeps a stripped substring. *)
Lemma infix_lstrip (sub s : pystr) :
  stripped sub -> infix sub s -> infix sub (lstrip s).
Proof.
  intros Hs (a & b & ->).
  destruct (stripped_head _ Hs) as (c & r & -> & Hc).
  induction a as [|x a IH]; simpl.
  - rewrite Hc. now exists [], b.
  - destruct (isspace x); [exact IH|]. now exists (x :: a), b.
Qed.

Lemma infix_rstrip (sub s : pystr) :
  stripped sub -> infix sub s -> infix sub (rstrip s).
Proof.
  intros Hs (a & b & ->).
  destruct Hs as (Hne & _ & Hr).
  assert (Hsb : exists b', rstrip (sub ++ b) = sub ++ b').
  { rewrite rstrip_app. destruct (rstrip b) as [|d r'].
    - exists []. now rewrite Hr, app_nil_r.
    - now exists (d :: r'). }
  destruct Hsb as (b' & Hb').
  rewrite rstrip_app, Hb'.
  destruct (sub ++ b') as [|d r'] eqn:E.
  - destruct sub; [congruence|discriminate].
  - rewrite <- E. now exists a, b'.
Qed.

Lemma infix_strip (sub s : pystr) :
  stripped sub -> infix sub s -> infix sub (strip s).
Proof. intros Hs H. unfold strip. now apply infix_rstrip, infix_lstrip. Qed.

Lemma infix_app_r (sub s t : pystr) : infix sub s -> infix sub (s ++ t).
Proof. intros (a & b & ->). exists a, (b ++ t). now rewrite <- !app_assoc. Qed.

Lemma infix_app_l (sub s t : pystr) : infix sub s -> infix sub (t ++ s).
Proof. intros (a & b & ->). exists (t ++ a), b. now rewrite <- !app_assoc. Qed.

Lemma infix_refl (s : pystr) : infix s s.
Proof. exists [], []. now rewrite app_nil_r. Qed.

Lemma startswith_spec (s p : pystr) : startswith s p = true <-> exists r, s = p ++ r.
Proof.
  revert s. induction p as [|a p IH]; intros s; simpl.
  - split; [now exists s|reflexivity].
  - destruct s as [|b s].
    + split; [discriminate|]. now intros (r & [=]).
    + rewrite andb_true_iff, N.eqb_eq, IH. split.
      * intros (-> & r & ->). now exists r.
      * intros (r & [= -> ->]). split; [reflexivity|now exists r].
Qed.

Lemma contains_spec (sub s : pystr) : contains sub s = true <-> infix sub s.
Proof.
  induction s as [|x s IH]; simpl.
  - rewrite orb_false_r, startswith_spec. split.
    + intros (r & E). exists [], r. exact E.
    + intros ([|? ?] & b & E); [now exists b|discriminate].
  - rewrite orb_true_iff, startswith_spec, IH. split.
    + intros [(r & E)|(a & b & E)].
      * exists [], r. exact E.
      * exists (x :: a), b. simpl. now rewrite E.
    + intros ([|y a] & b & E).
      * left. now exists b.
      * right. injection E as -> ->. now exists a, b.
Qed.

(** [split] ignores surrounding whitespace, and its words are non-empty. *)
Lemma split_lstrip (s : pystr) : split (lstrip s) = split s.
Proof.
  induction s as [|c s IH]; [reflexivity|].
  simpl. destruct (isspace c) eqn:Hc; [exact IH|].
  simpl. now rewrite Hc.
Qed.

Lemma split_rstrip (s : pystr) : split (rstrip s) = split s.
Proof.
  induction s as [|c s IH]; [reflexivity|].
  destruct (rstrip s) as [|d r'] eqn:E.
  - (* the rest is whitespace only *)
    assert (Hs : split s = []) by now rewrite <- IH.
    assert (Hc : rstrip (c :: s) = if isspace c then [] else [c])
      by (simpl; now rewrite E).
    rewrite Hc. simpl. destruct (isspace c) eqn:Hsp; [now rewrite Hs|].
    simpl. rewrite Hsp. destruct s as [|d s']; [reflexivity|].
    apply rstrip_nil_head in E as [-> _]. now rewrite Hs.
  - assert (Hc : rstrip (c :: s) = c :: d :: r') by (simpl; now rewrite E).
    rewrite Hc. destruct s as [|d0 s']; [discriminate|].
    pose proof (rstrip_head _ _ _ _ E) as ->.
    change (split (c :: d0 :: r')) with
      (if isspace c then split (d0 :: r')
       else if isspace d0 then [c] :: split (d0 :: r')
            else match split (d0 :: r') with w :: ws => (c :: w) :: ws | [] => [[c]] end).
    change (split (c :: d0 :: s')) with
      (if isspace c then split (d0 :: s')
       else if isspace d0 then [c] :: split (d0 :: s')
            else match split (d0 :: s') with w :: ws => (c :: w) :: ws | [] => [[c]] end).
    now rewrite IH.
Qed.

Lemma split_strip (s : pystr) : split (strip s) = split s.
Proof. unfold strip. now rewrite split_rstrip, split_lstrip. Qed.

Lemma split_words_nonempty (s : pystr) : Forall (fun w => w <> []) (split s).
Proof.
  induction s as [|c s IH]; simpl; [constructor|].
  destruct (isspace c); [exact IH|].
  destruct s as [|d s']; [now repeat constructor|].
  destruct (isspace d); [now constructor|].
  destruct (split (d :: s')) as [|w ws]; [now repeat constructor|].
  inversion IH; subst. now constructor.
Qed.

Lemma join_truthy (sep : pystr) (ws : list pystr) :
  ws <> [] -> Forall (fun w => w <> []) ws -> truthy (join sep ws) = true.
Proof.
  destruct ws as [|w ws]; [congruence|]. intros _ H.
  inversion H as [|? ? Hw _]; subst.
  destruct w as [|c w]; [congruence|].
  simpl. now destruct ws.
Qed.

End PyStrFacts.

(** ** The loop of [chunk_text] *)
Section ChunkLoop.
Import PyStr TextProcessor.

Variable self : TextProcessor.
Variable product_id : pystr.

Lemma fold_left_inv {S A : Type} (f : S -> A -> S) (P : S -> Prop) (l : list A) (s : S) :
  P s -> (forall s a, P s -> P (f s a)) -> P (fold_left f l s).
Proof.
  intros Hs Hstep. revert s Hs.
  induction l as [|a l IH]; intros s Hs; simpl; [exact Hs|].
  apply IH, Hstep, Hs.
Qed.

Lemma well_indexed_nil : well_indexed product_id [].
Proof. split; [reflexivity|constructor]. Qed.

Lemma well_indexed_snoc (cs : list chunk) (t : pystr) (wc : nat) :
  well_indexed product_id cs ->
  well_indexed product_id (cs ++ [make_chunk t product_id (length cs) wc]).
Proof.
  intros [Hi Hid]. split.
  - rewrite map_app, length_app, Hi. simpl.
    rewrite Nat.add_1_r, seq_S. reflexivity.
  - apply Forall_app. split; [exact Hid|]. now repeat constructor.
Qed.

Lemma loop_body_index_inv (st : loop_state) (sentence : pystr) :
  index_inv product_id st -> index_inv product_id (loop_body self product_id st sentence).
Proof.
  intros [Hn Hw]. unfold loop_body.
  destruct (truthy (strip sentence)); cbn [negb]; [|now split].
  destruct (exceeds self st (strip sentence)); [|now split].
  split; cbn [next_index chunks].
  - rewrite length_app, Hn. reflexivity.
  - rewrite Hn. now apply well_indexed_snoc.
Qed.

Lemma run_loop_index_inv (sentences : list pystr) :
  index_inv product_id (run_loop self product_id sentences).
Proof.
  unfold run_loop. apply fold_left_inv.
  - split; [reflexivity|apply well_indexed_nil].
  - intros st a. apply loop_body_index_inv.
Qed.

Lemma loop_body_skip (st : loop_state) (sentence : pystr) :
  truthy (strip sentence) = false -> loop_body self product_id st sentence = st.
Proof. intros H. unfold loop_body. now rewrite H. Qed.

Lemma loop_body_covered_old (s : pystr) (st : loop_state) (sentence : pystr) :
  stripped s -> covered s st -> covered s (loop_body self product_id st sentence).
Proof.
  intros Hs Hc. unfold loop_body.
  destruct (truthy (strip sentence)); cbn [negb]; [|exact Hc].
  destruct (exceeds self st (strip sentence)); unfold covered; cbn [chunks current_chunk].
  - left. destruct Hc as [(c & Hin & Hc)|Hc].
    + exists c. split; [|exact Hc]. apply elem_of_app. now left.
    + eexists. split; [apply elem_of_app; right; apply list_elem_of_singleton; reflexivity|].
      cbn [text make_chunk]. now apply infix_strip.
  - destruct Hc as [Hc|Hc]; [now left|right].
    now apply infix_app_r.
Qed.

Lemma loop_body_covered_new (st : loop_state) (sentence : pystr) :
  truthy (strip sentence) = true ->
  covered (strip sentence) (loop_body self product_id st sentence).
Proof.
  intros Ht. unfold loop_body. rewrite Ht. cbn [negb]. right.
  destruct (exceeds self st (strip sentence)); cbn [current_chunk].
  - destruct (truthy (_get_overlap self (current_chunk st))).
    + apply infix_app_l, infix_app_l, infix_refl.
    + apply infix_refl.
  - apply infix_app_l. destruct (truthy (current_chunk st)).
    + apply infix_app_l, infix_refl.
    + apply infix_refl.
Qed.

Lemma loop_sentences_stripped (sentences : list pystr) (s : pystr) :
  s ∈ loop_sentences sentences ->
  stripped s /\ exists x, x ∈ sentences /\ s = strip x.
Proof.
  unfold loop_sentences. rewrite list_elem_of_In, filter_In, in_map_iff.
  intros [(x & <- & Hx) Ht]. split.
  - apply strip_stripped. now apply truthy_true.
  - exists x. split; [now apply list_elem_of_In|reflexivity].
Qed.

Lemma fold_loop_covered (s : pystr) (sentences : list pystr) (st : loop_state) :
  stripped s ->
  covered s st \/ s ∈ loop_sentences sentences ->
  covered s (fold_left (loop_body self product_id) sentences st).
Proof.
  intros Hs. revert st.
  induction sentences as [|x l IH]; intros st H; simpl.
  - destruct H as [H|H]; [exact H|]. now apply elem_of_nil in H.
  - apply IH. destruct H as [H|H].
    + left. now apply loop_body_covered_old.
    + unfold loop_sentences in H. simpl in H.
      destruct (truthy (strip x)) eqn:Ht.
      * apply elem_of_cons in H as [->|H]; [|now right].
        left. now apply loop_body_covered_new.
      * now right.
Qed.

End ChunkLoop.

(** ** Loops over consecutive batches *)
Section Batching.
Import PyStr.

Lemma batch_count_covers (n b : nat) : 0 < b -> n <= batch_count n b * b.
Proof.
  intros Hb. unfold batch_count.
  pose proof (Nat.div_mod_eq (n + b - 1) b) as Hdiv.
  pose proof (Nat.mod_upper_bound (n + b - 1) b) as Hmod.
  nia.
Qed.

Lemma batch_start_lt (n b k : nat) : 0 < b -> k < batch_count n b -> k * b < n.
Proof.
  intros Hb. unfold batch_count.
  pose proof (Nat.div_mod_eq (n + b - 1) b) as Hdiv.
  pose proof (Nat.mod_upper_bound (n + b - 1) b) as Hmod.
  nia.
Qed.

Lemma range_batches (n b : nat) :
  0 < b ->
  range 0 (Z.of_nat n) (Z.of_nat b) = (fun k => Z.of_nat (k * b)) <$> seq 0 (batch_count n b).
Proof.
  intros Hb. unfold range, batch_count.
  assert (Hpos : (0 <? Z.of_nat b)%Z = true) by (apply Z.ltb_lt; lia).
  rewrite Hpos.
  replace (Z.of_nat n - 0 + Z.of_nat b - 1)%Z with (Z.of_nat (n + b - 1)) by lia.
  rewrite <- Nat2Z.inj_div, Nat2Z.id.
  apply list_fmap_ext. intros _ k _. lia.
Qed.

Lemma range_lookup (n b k : nat) (i : Z) :
  0 < b ->
  range 0 (Z.of_nat n) (Z.of_nat b) !! k = Some i ->
  i = Z.of_nat (k * b) /\ k * b < n.
Proof.
  intros Hb. rewrite range_batches by exact Hb.
  rewrite list_lookup_fmap. intros H.
  destruct (seq 0 (batch_count n b) !! k) as [k'|] eqn:E; [|discriminate].
  apply lookup_seq in E as [-> Hk]. simpl in H. injection H as <-.
  split; [reflexivity|]. now apply batch_start_lt.
Qed.

(** Consecutive slices of width [b] put back together. *)
Lemma concat_slices {A : Type} (l : list A) (b m : nat) :
  concat ((fun k => take b (drop (k * b) l)) <$> seq 0 m) = take (m * b) l.
Proof.
  induction m as [|m IH]; [reflexivity|].
  rewrite seq_S, fmap_app, concat_app, IH. simpl.
  rewrite app_nil_r, take_take_drop. f_equal. lia.
Qed.

Lemma concat_batches {A : Type} (l : list A) (b : nat) :
  0 < b ->
  concat ((fun k => take b (drop (k * b) l)) <$> seq 0 (batch_count (length l) b)) = l.
Proof.
  intros Hb. rewrite concat_slices. apply take_ge.
  now apply batch_count_covers.
Qed.

(** [l[i:min(i + b, n)]] is the slice of width [b] at [i] when [l] has [n]
    elements. *)
Lemma slice_min {A : Type} (l : list A) (i b : nat) :
  slice i (min (i + b) (length l)) l = take b (drop i l).
Proof.
  unfold slice.
  destruct (decide (i + b <= length l)) as [H|H].
  - f_equal. lia.
  - rewrite !take_ge; [reflexivity| |]; rewrite length_drop; lia.
Qed.

(** A loop whose body appends to the accumulator and never raises. *)
Lemma for_in_extend {A V : Type} (xs : list A) (g : A -> list V)
    (body : list V -> A -> result (list V)) (acc : list V) :
  (forall s x, x ∈ xs -> body s x = Ok (s ++ g x)) ->
  for_in xs body acc = Ok (acc ++ concat (g <$> xs)).
Proof.
  revert acc. induction xs as [|x xs IH]; intros acc H; simpl.
  - now rewrite app_nil_r.
  - rewrite H by apply list_elem_of_here. simpl.
    rewrite IH.
    + now rewrite <- app_assoc.
    + intros s y Hy. apply H. now apply list_elem_of_further.
Qed.

Lemma io_bind_ok {store A B : Type} (f : A -> io store B) (m : io store A)
    (s s' : store) (a : A) :
  m s = (Ok a, s') -> (a' ← m; f a') s = f a s'.
Proof. intros H. unfold mbind, io_bind. now rewrite H. Qed.

Lemma io_bind_ret_snd {store A B : Type} (m : io store A) (b : B) (s : store) :
  ((_ ← m; mret b) s).2 = (m s).2.
Proof. unfold mbind, io_bind, mret, io_ret. now destruct (m s) as [[?|?] ?]. Qed.

(** A loop on the store whose [i]-th iteration takes a state satisfying
    [I i] to one satisfying [I (i + 1)] without raising. *)
Lemma for_in_io_inv {store A : Type} (xs : list A) (body : unit -> A -> io store unit)
    (I : nat -> store -> Prop) (s : store) :
  I 0 s ->
  (forall i x s, xs !! i = Some x -> I i s ->
     exists s', body tt x s = (Ok tt, s') /\ I (S i) s') ->
  exists s', for_in xs body tt s = (Ok tt, s') /\ I (length xs) s'.
Proof.
  revert I s. induction xs as [|x xs IH]; intros I s H0 Hstep.
  - exists s. now split.
  - destruct (Hstep 0 x s eq_refl H0) as (s1 & Hb & H1).
    destruct (IH (fun i => I (S i)) s1 H1) as (s' & Hf & Hs').
    { intros i y t Hy Hi. now apply (Hstep (S i) y t). }
    exists s'. split; [|exact Hs'].
    change (for_in (x :: xs) body tt s)
      with ((state' ← body tt x; for_in xs body state') s).
    rewrite (io_bind_ok _ _ _ _ _ Hb). exact Hf.
Qed.

(** A property of the store that every iteration keeps, whether it
    returns or raises, holds when the loop ends. *)
Lemma for_in_io_preserved {store A : Type} (xs : list A) (body : unit -> A -> io store unit)
    (P : store -> Prop) (s : store) :
  P s ->
  (forall x s, x ∈ xs -> P s -> P (body tt x s).2) ->
  P (for_in xs body tt s).2.
Proof.
  revert s. induction xs as [|x xs IH]; intros s Hs Hstep; [exact Hs|].
  change (for_in (x :: xs) body tt s)
    with ((state' ← body tt x; for_in xs body state') s).
  unfold mbind, io_bind.
  pose proof (Hstep x s (list_elem_of_here _ _) Hs) as H1.
  destruct (body tt x s) as [[[]|e] s1]; cbn [snd] in *; [|exact H1].
  apply IH; [exact H1|].
  intros y t Hy. apply Hstep. now apply list_elem_of_further.
Qed.

End Batching.

(** ** Properties of [chunk_text] and [concatenate_product_text] *)
Section ChunkText.
Import PyStr TextProcessor Examples.

Implicit Types (sent_tokenize : pystr -> result (list pystr)) (self : TextProcessor).
Implicit Types (input product_id : pystr).

Lemma elem_of_fallback {A : Type} (x d : A) (l : list A) :
  x ∈ l -> x ∈ match l with [] => l ++ [d] | _ :: _ => l end.
Proof. destruct l; [|trivial]. intros H. now apply elem_of_nil in H. Qed.

Lemma is_short_false self input :
  is_short self input = false -> input <> [].
Proof.
  unfold is_short. destruct input; [discriminate|congruence].
Qed.

(** C2, as stated, fails: a text of eleven words is 74 characters long,
    takes the splitting path and comes back with its whitespace
    normalised, whether the sentence splitter works or raises. *)
Lemma chunk_text_short_words_counterexample :
  length (split (strip eleven_words)) = 11 /\
  length (strip eleven_words) = 74 /\
  map text (chunk_text one_sentence default_processor eleven_words (py "P1"))
    = [py "wireless optical mouse with usb receiver and two spare batteries included"] /\
  map text (chunk_text nltk_unavailable default_processor eleven_words (py "P1"))
    = [py "wireless optical mouse with usb receiver and two spare batteries included"] /\
  eleven_words
    <> py "wireless optical mouse with usb receiver and two spare batteries included".
Proof.
  split; [vm_compute; reflexivity|].
  split; [vm_compute; reflexivity|].
  split; [vm_compute; reflexivity|].
  split; [vm_compute; reflexivity|].
  vm_compute. discriminate.
Qed.

(** C2, amended: the guard counts characters.  An empty text, or one
    whose trimmed form has fewer than 50 characters, yields exactly one
    chunk holding the input unchanged, with index 0 and identifier
    [{product_id}_chunk_0]. *)
Theorem chunk_text_short_input sent_tokenize target overlap input product_id :
  input = [] \/ length (strip input) < 50 ->
  chunk_text sent_tokenize (init target overlap) input product_id =
    [ {| text := input;
         chunk_id := product_id ++ py "_chunk_0";
         chunk_index := 0;
         word_count := length (split input);
         product_id := product_id |} ].
Proof.
  intros H. unfold chunk_text.
  assert (Hs : is_short (init target overlap) input = true).
  { unfold is_short. cbn [min_chunk_size init].
    destruct H as [->|H]; [reflexivity|].
    apply orb_true_iff. right. apply Z.ltb_lt. lia. }
  rewrite Hs. unfold make_chunk, format_chunk_id.
  now destruct input.
Qed.

Lemma chunk_text_short_input_witness :
  chunk_text nltk_unavailable default_processor (py " Wireless  Mouse ") (py "P1") =
    [ {| text := py " Wireless  Mouse ";
         chunk_id := py "P1" ++ py "_chunk_0";
         chunk_index := 0;
         word_count := length (split (py " Wireless  Mouse "));
         product_id := py "P1" |} ].
Proof.
  apply (chunk_text_short_input nltk_unavailable 125 25 (py " Wireless  Mouse ") (py "P1")).
  right. vm_compute. lia.
Defined.

(** C1, as stated, fails: after a sentence of 124 words, a sentence of two
    words closes the first chunk and is left in a buffer of 27 words, which
    is below the minimum of 30 and is not returned. *)
Lemma chunk_text_drops_tail_sentence :
  is_short default_processor trailing_text = false /\
  (py "Tiny end" ∈ loop_sentences (tokenize nltk_unavailable trailing_text) /\
   existsb (fun c => contains (py "Tiny end") (text c))
     (chunk_text nltk_unavailable default_processor trailing_text (py "P1")) = false) /\
  (py "Tiny end." ∈
     loop_sentences (tokenize (two_sentences long_sentence tail_sentence) trailing_text) /\
   existsb (fun c => contains (py "Tiny end") (text c))
     (chunk_text (two_sentences long_sentence tail_sentence) default_processor
        trailing_text (py "P1")) = false).
Proof.
  split; [vm_compute; reflexivity|].
  split; (split; [|vm_compute; reflexivity]).
  - apply list_elem_of_In. vm_compute. right. left. reflexivity.
  - apply list_elem_of_In. vm_compute. right. left. reflexivity.
Qed.

(** C1, amended: for a text that takes the splitting path, every sentence
    the loop receives occurs in a returned chunk, unless the final buffer
    has fewer than 30 words; then the sentence lies in that buffer, and
    either a chunk was closed before it or the sentence is not a substring
    of the normalised text. *)
Theorem chunk_text_sentence_coverage sent_tokenize self input product_id (s : pystr) :
  is_short self input = false ->
  s ∈ loop_sentences (tokenize sent_tokenize input) ->
  let st := run_loop self product_id (tokenize sent_tokenize input) in
  (exists c, c ∈ chunk_text sent_tokenize self input product_id /\
             contains s (text c) = true)
  \/ (current_word_count st < 30 /\
      contains s (current_chunk st) = true /\
      (chunks st <> [] \/ contains s (_clean_text input) = false)).
Proof.
  intros Hshort Hs st.
  destruct (loop_sentences_stripped _ _ Hs) as [Hstr _].
  assert (Hcov : covered s st).
  { apply fold_loop_covered; [exact Hstr|now right]. }
  unfold chunk_text. rewrite Hshort.
  change (try_except (sent_tokenize (_clean_text input))
            (_simple_sentence_split (_clean_text input)))
    with (tokenize sent_tokenize input).
  fold st. cbv zeta.
  destruct Hcov as [(c & Hin & Hc)|Hc].
  - left. exists c. split; [|now apply contains_spec].
    apply elem_of_fallback.
    destruct (truthy (current_chunk st) && (30 <=? current_word_count st));
      [apply elem_of_app; now left|exact Hin].
  - assert (Ht : truthy (current_chunk st) = true).
    { apply truthy_true. intros E. rewrite E in Hc.
      destruct Hc as (a & b & Hab). destruct Hstr as [Hne _].
      destruct a; [destruct s; [congruence|discriminate]|discriminate]. }
    rewrite Ht. cbn [andb].
    destruct (30 <=? current_word_count st) eqn:Hwc.
    + left. eexists. split.
      * apply elem_of_fallback, elem_of_app. right.
        apply list_elem_of_singleton. reflexivity.
      * cbn [text make_chunk]. apply contains_spec. now apply infix_strip.
    + apply Nat.leb_gt in Hwc.
      destruct (chunks st) as [|c0 cs] eqn:Hcs.
      * destruct (contains s (_clean_text input)) eqn:Hclean.
        -- left. eexists. split; [apply list_elem_of_singleton; reflexivity|].
           exact Hclean.
        -- right. split; [exact Hwc|]. split; [now apply contains_spec|now right].
      * right. split; [exact Hwc|]. split; [now apply contains_spec|now left].
Qed.

Lemma chunk_text_sentence_coverage_witness :
  let st := run_loop default_processor (py "P1") (tokenize nltk_unavailable forty_words) in
  (exists c, c ∈ chunk_text nltk_unavailable default_processor forty_words (py "P1") /\
             contains (words_of (py "sturdy") 39 ++ py " build") (text c) = true)
  \/ (current_word_count st < 30 /\
      contains (words_of (py "sturdy") 39 ++ py " build") (current_chunk st) = true /\
      (chunks st <> [] \/
       contains (words_of (py "sturdy") 39 ++ py " build") (_clean_text forty_words) = false)).
Proof.
  apply (chunk_text_sentence_coverage nltk_unavailable default_processor forty_words
           (py "P1") (words_of (py "sturdy") 39 ++ py " build")).
  - vm_compute. reflexivity.
  - apply list_elem_of_In. vm_compute. left. reflexivity.
Defined.

(** C3, as stated, fails: a closed chunk of exactly 25 words leaves no
    overlap, and the next buffer is the triggering sentence alone. *)
Lemma overlap_seed_counterexample :
  let st := run_loop default_processor (py "P1") [sentence_25] in
  length (split (strip (current_chunk st))) = 25 /\
  exceeds default_processor st (strip sentence_101) = true /\
  current_chunk (loop_body default_processor (py "P1") st sentence_101) = sentence_101 /\
  current_chunk (loop_body default_processor (py "P1") st sentence_101)
    <> overlap_seed 25 (strip (current_chunk st)) sentence_101.
Proof.
  cbv zeta. split; [vm_compute; reflexivity|].
  split; [vm_compute; reflexivity|].
  split; [vm_compute; reflexivity|].
  vm_compute. discriminate.
Qed.

(** C3, amended: when a sentence would push the word count over the
    target and the buffer is non-empty, the chunk is closed with the next
    index, and the new buffer is the last [overlap_size] words of the
    closed chunk's text followed by the sentence if that chunk has more
    than [overlap_size] words, and the sentence alone otherwise. *)
Theorem loop_body_closes_chunk self product_id (st : loop_state) (sentence : pystr) :
  truthy (strip sentence) = true ->
  exceeds self st (strip sentence) = true ->
  (0 < overlap_size self)%Z ->
  let closed :=
    make_chunk (strip (current_chunk st)) product_id (next_index st) (current_word_count st) in
  let st' := loop_body self product_id st sentence in
  chunks st' = chunks st ++ [closed] /\
  next_index st' = next_index st + 1 /\
  current_chunk st' =
    if (overlap_size self <? Z.of_nat (length (split (text closed))))%Z
    then overlap_seed (Z.to_nat (overlap_size self)) (text closed) (strip sentence)
    else strip sentence.
Proof.
  intros Ht Hex Hov closed st'. subst st'. unfold loop_body.
  rewrite Ht, Hex. cbn [negb chunks next_index current_chunk].
  split; [reflexivity|]. split; [reflexivity|].
  subst closed. cbn [text make_chunk]. unfold overlap_seed. rewrite split_strip.
  unfold _get_overlap.
  assert (Hcur : truthy (current_chunk st) = true).
  { unfold exceeds in Hex. now apply andb_true_iff in Hex as [_ ?]. }
  rewrite Hcur. cbn [negb].
  rewrite Z.gtb_ltb.
  destruct (overlap_size self <? Z.of_nat (length (split (current_chunk st))))%Z eqn:Hlen;
    [|reflexivity].
  apply Z.ltb_lt in Hlen.
  assert (Hslice : slice_from (- overlap_size self) (split (current_chunk st)) =
                   last_words (Z.to_nat (overlap_size self)) (split (current_chunk st))).
  { unfold slice_from, last_words.
    assert (H0 : (- overlap_size self <? 0)%Z = true) by (apply Z.ltb_lt; lia).
    rewrite H0. f_equal. lia. }
  rewrite Hslice.
  assert (Hjoin : truthy (join (py " ")
                    (last_words (Z.to_nat (overlap_size self)) (split (current_chunk st))))
                  = true).
  { apply join_truthy.
    - unfold last_words. intros E. apply (f_equal length) in E.
      rewrite length_drop in E. simpl in E. lia.
    - unfold last_words. apply Forall_drop, split_words_nonempty. }
  rewrite Hjoin. reflexivity.
Qed.

Lemma loop_body_closes_chunk_witness :
  let st := run_loop default_processor (py "P1") [long_sentence] in
  let closed := make_chunk (strip (current_chunk st)) (py "P1") (next_index st)
                  (current_word_count st) in
  let st' := loop_body default_processor (py "P1") st tail_sentence in
  chunks st' = chunks st ++ [closed] /\
  next_index st' = next_index st + 1 /\
  current_chunk st' =
    if (overlap_size default_processor <? Z.of_nat (length (split (text closed))))%Z
    then overlap_seed (Z.to_nat (overlap_size default_processor)) (text closed)
           (strip tail_sentence)
    else strip tail_sentence.
Proof.
  apply (loop_body_closes_chunk default_processor (py "P1")
           (run_loop default_processor (py "P1") [long_sentence]) tail_sentence).
  - vm_compute. reflexivity.
  - vm_compute. reflexivity.
  - vm_compute. reflexivity.
Defined.

(** C8: the chunks returned by [chunk_text] carry the indices 0, 1, 2, ...
    in order, and each identifier is [{product_id}_chunk_{chunk_index}],
    whatever the text and the product. *)
Theorem chunk_text_indices sent_tokenize self input product_id :
  let cs := chunk_text sent_tokenize self input product_id in
  map chunk_index cs = seq 0 (length cs) /\
  Forall (fun c => chunk_id c = product_id ++ py "_chunk_" ++ str_of_nat (chunk_index c)) cs.
Proof.
  cbv zeta. unfold chunk_text.
  destruct (is_short self input); [split; [reflexivity|now repeat constructor]|].
  set (sentences := try_except _ _).
  destruct (run_loop_index_inv self product_id sentences) as [Hn Hw].
  set (st := run_loop self product_id sentences) in *.
  cbv zeta.
  destruct (truthy (current_chunk st) && (30 <=? current_word_count st)).
  - rewrite Hn.
    pose proof (well_indexed_snoc product_id (chunks st) (strip (current_chunk st))
                  (current_word_count st) Hw) as H.
    destruct (chunks st ++ _) eqn:E; [|exact H].
    now destruct (chunks st).
  - destruct (chunks st) eqn:E; [|exact Hw].
    split; [reflexivity|now repeat constructor].
Qed.

(** C9: [chunk_text] returns at least one chunk for every text, empty and
    whitespace-only ones included, whether [sent_tokenize] returns or
    raises. *)
Theorem chunk_text_nonempty sent_tokenize self input product_id :
  1 <= length (chunk_text sent_tokenize self input product_id).
Proof.
  unfold chunk_text.
  destruct (is_short self input); [simpl; lia|].
  cbv zeta.
  match goal with |- context [match ?l with [] => _ | _ :: _ => _ end] =>
    destruct l eqn:E end.
  - rewrite length_app. simpl. lia.
  - simpl. lia.
Qed.

(** C7: what [concatenate_product_text] returns for the example record.
    The clauses come in the order of the claim and the category separator
    is rendered as [" > "], but the price clause starts with the three code
    points U+00E2 U+201A U+00B9 of the source literal, not with the rupee
    sign U+20B9. *)
Theorem concatenate_mouse_row (float_str : float -> pystr) :
  concatenate_product_text float_str mouse_row =
    py "Product: Wireless Mouse. Brand: acme. Category: electronics > computers. Price: "
    ++ [226; 8218; 185]%N ++ float_str 19.99%float
    ++ py ". Description: AAAAAAAAAAAAAAAAAAAAAAAAAAAAAAAAAAAAAAAA"
  /\ startswith (concatenate_product_text float_str mouse_row)
       (py "Product: Wireless Mouse. Brand: acme. Category: electronics > computers. Price: "
        ++ [8377]%N) = false.
Proof.
  split; vm_compute; reflexivity.
Qed.

End ChunkText.

(** ** Properties of [generate_embeddings], [create_collection] and
    [store_embeddings] *)
Section Embedding.
Import PyStr EmbeddingGenerator StoreExamples.

Context {vector : Type}.
Variable float_str : float -> pystr.

Lemma batch_entries_rows (rows : list chunk_row) (vs : list vector) :
  batch_entries (batch_of float_str rows vs) = row_entries float_str rows vs.
Proof.
  unfold batch_entries, row_entries, batch_of. cbn [ids embeddings documents metadatas].
  revert vs. induction rows as [|r rows IH]; intros [|v vs]; try reflexivity.
  simpl. f_equal. apply IH.
Qed.

Lemma row_entries_ids (rows : list chunk_row) (vs : list vector) :
  length rows <= length vs ->
  entry_id <$> row_entries float_str rows vs = chunk_id <$> rows.
Proof.
  revert vs. induction rows as [|r rows IH]; intros [|v vs] H; simpl in *;
    try reflexivity; try lia.
  f_equal. apply IH. lia.
Qed.

(** [write_batches] cuts the rows and the vectors into consecutive slices
    of a hundred. *)
Lemma write_batches_eq (chunks_df : list chunk_row) (embs : list vector) :
  length embs = length chunks_df ->
  write_batches float_str chunks_df embs =
    (fun k => batch_of float_str (take 100 (drop (k * 100) chunks_df)) (take 100 (drop (k * 100) embs)))
    <$> seq 0 (batch_count (length chunks_df) 100).
Proof.
  intros Hlen. unfold write_batches. cbv zeta.
  rewrite length_fmap, range_batches by lia.
  rewrite <- list_fmap_compose. apply list_fmap_ext. intros _ k _.
  unfold compose. cbv beta.
  rewrite Nat2Z.id. unfold batch_of.
  rewrite <- Hlen at 1. rewrite slice_min.
  rewrite <- (length_fmap text chunks_df) at 1. rewrite slice_min.
  rewrite <- (length_fmap (row_metadata float_str) chunks_df) at 1. rewrite slice_min.
  rewrite <- (length_fmap chunk_id chunks_df). rewrite slice_min.
  now rewrite !fmap_take, !fmap_drop.
Qed.

Lemma write_batches_length (chunks_df : list chunk_row) (embs : list vector) :
  length embs = length chunks_df ->
  length (write_batches float_str chunks_df embs) = batch_count (length chunks_df) 100.
Proof.
  intros Hlen. rewrite write_batches_eq by exact Hlen.
  now rewrite length_fmap, length_seq.
Qed.

(** The [k]-th call receives the [k]-th slice of a hundred rows. *)
Lemma write_batches_lookup (chunks_df : list chunk_row) (embs : list vector)
    (k : nat) (b : add_args vector) :
  length embs = length chunks_df ->
  write_batches float_str chunks_df embs !! k = Some b ->
  k * 100 < length chunks_df /\
  b = batch_of float_str (take 100 (drop (k * 100) chunks_df)) (take 100 (drop (k * 100) embs)).
Proof.
  intros Hlen. rewrite write_batches_eq by exact Hlen.
  rewrite list_lookup_fmap.
  destruct (seq 0 (batch_count (length chunks_df) 100) !! k) as [k'|] eqn:E; [|discriminate].
  apply lookup_seq in E as [-> Hk]. intros [= <-].
  split; [|reflexivity]. apply batch_start_lt; [lia|exact Hk].
Qed.

Lemma filter_all {A : Type} (f : A -> bool) (l : list A) :
  Forall (fun x => f x = true) l -> List.filter f l = l.
Proof.
  induction 1 as [|x l Hx _ IH]; [reflexivity|].
  simpl. now rewrite Hx, IH.
Qed.

(** The reset phase on the model store: the collection is there and
    empty afterwards, whatever the store held. *)
Lemma chroma_create_collection (name : pystr) (s : gmap pystr (collection vector)) :
  create_collection chroma name s =
    (Ok name, <[name := {| collection_config := cosine_config; collection_entries := [] |}]> s).
Proof.
  unfold create_collection, reset_collection, io_try, mbind, io_bind, mret, io_ret.
  cbn [chroma get_collection delete_collection client_create_collection].
  destruct (s !! name) eqn:E; rewrite ?E; cbv beta iota.
  - rewrite lookup_delete_eq. now rewrite insert_delete_eq.
  - reflexivity.
Qed.

(** C4: when the model embeds a batch text by text, [generate_embeddings]
    returns the embedding of every input text, in order, for every
    positive batch size: the result does not depend on the batch size. *)
Theorem generate_embeddings_elementwise (embed : pystr -> vector)
    (encode : list pystr -> result (list vector)) (texts : list pystr) (batch_size : Z) :
  (forall batch, encode batch = Ok (embed <$> batch)) ->
  (0 < batch_size)%Z ->
  generate_embeddings encode texts batch_size = Ok (embed <$> texts).
Proof.
  intros Henc Hpos. unfold generate_embeddings.
  assert (Hz : (batch_size =? 0)%Z = false) by (apply Z.eqb_neq; lia).
  rewrite Hz.
  set (b := Z.to_nat batch_size).
  assert (Hb : batch_size = Z.of_nat b) by (subst b; lia).
  rewrite Hb, range_batches by lia.
  rewrite (for_in_extend _ (fun i => embed <$> take b (drop (Z.to_nat i) texts))).
  - rewrite <- list_fmap_compose. unfold compose. simpl. f_equal.
    etrans; [|apply (concat_batches (embed <$> texts) b); lia].
    rewrite length_fmap. f_equal. apply list_fmap_ext. intros _ k _.
    now rewrite Nat2Z.id, fmap_take, fmap_drop.
  - intros s i Hi. apply list_elem_of_fmap in Hi as (k & -> & _).
    rewrite Henc. simpl. do 3 f_equal. unfold slice. f_equal. lia.
Qed.

Lemma batch_of_accepted (rows : list chunk_row) (vs : list vector) :
  length vs = length rows -> 0 < length rows ->
  (length (ids (batch_of float_str rows vs)) =? 0) || negb (same_lengths (batch_of float_str rows vs)) = false.
Proof.
  intros Hlen Hpos. unfold same_lengths, batch_of.
  cbn [ids embeddings documents metadatas]. rewrite !length_fmap, Hlen.
  rewrite Nat.eqb_refl. cbn [andb negb].
  rewrite orb_false_r. apply Nat.eqb_neq. lia.
Qed.


(** C10: whatever the client does, the reset phase of
    [create_collection] ends without an exception: one raised by the
    lookup or by the delete is dropped, and the result of
    [create_collection] is the result of the client's own
    [create_collection] in the state the reset phase left. *)
Theorem create_collection_swallows_reset_errors {store : Type}
    (self_client : client vector store) (name : pystr) (s : store) :
  let looked_up := get_collection self_client name s in
  let s' :=
    match looked_up.1 with
    | Ok _ => (delete_collection self_client name looked_up.2).2
    | Raise _ => looked_up.2
    end in
  reset_collection self_client name s = (Ok tt, s') /\
  create_collection self_client name s =
    client_create_collection self_client name cosine_config s'.
Proof.
  cbv zeta. unfold create_collection, reset_collection, io_try, mbind, io_bind, mret, io_ret.
  destruct (get_collection self_client name s) as [[[]|e] s1]; cbn [fst snd].
  - destruct (delete_collection self_client name s1) as [[[]|e] s2]; cbn [fst snd];
      split; reflexivity.
  - split; reflexivity.
Qed.

Lemma chroma_add_written_by (batches : list (add_args vector)) (name : pystr)
    (b : add_args vector) (s : gmap pystr (collection vector)) :
  b ∈ batches -> written_by batches name s ->
  written_by batches name (collection_add chroma name b s).2.
Proof.
  intros Hb Hs. cbn [chroma collection_add].
  destruct (s !! name) as [c0|] eqn:E; [|exact Hs].
  destruct ((length (ids b) =? 0) || negb (same_lengths b)); [exact Hs|].
  destruct (bool_decide (NoDup (ids b))); [|exact Hs].
  cbn [snd]. intros c e Hc He.
  rewrite lookup_insert_eq in Hc. injection Hc as <-.
  cbn [collection_entries] in He. apply elem_of_app in He as [He|He].
  - now apply (Hs c0 e).
  - exists b. split; [exact Hb|].
    apply list_elem_of_In, filter_In in He as [He _]. now apply list_elem_of_In.
Qed.

(** C5, amended: on the store, whatever it held before under that name or
    any other, [store_embeddings] leaves in the named collection only
    entries written by this run; and when there are as many vectors as
    rows and the chunk ids are distinct, it returns with the collection
    holding exactly the entries of the given rows, in order. *)
Theorem store_embeddings_replaces_collection (chunks_df : list chunk_row)
    (embs : list vector) (name : pystr) (s : gmap pystr (collection vector)) :
  written_by (write_batches float_str chunks_df embs) name
    (store_embeddings float_str chroma chunks_df embs name s).2 /\
  (length embs = length chunks_df ->
   NoDup (chunk_id <$> chunks_df) ->
   exists s',
     store_embeddings float_str chroma chunks_df embs name s = (Ok name, s') /\
     s' !! name = Some {| collection_config := cosine_config;
                          collection_entries := row_entries float_str chunks_df embs |}).
Proof.
  split.
  { unfold store_embeddings.
    rewrite (io_bind_ok _ _ _ _ _ (chroma_create_collection name s)).
    set (s0 := <[name := {| collection_config := cosine_config; collection_entries := [] |}]> s).
    assert (Hloop : written_by (write_batches float_str chunks_df embs) name
              (for_in (write_batches float_str chunks_df embs)
                 (fun _ batch => collection_add chroma name batch) tt s0).2).
    { apply for_in_io_preserved.
      - intros c e Hc He. subst s0. rewrite lookup_insert_eq in Hc.
        injection Hc as <-. now apply elem_of_nil in He.
      - intros b t Hb Ht. now apply chroma_add_written_by. }
    now rewrite io_bind_ret_snd. }
  intros Hlen Hnd.
  set (all := row_entries float_str chunks_df embs).
  set (s0 := <[name := {| collection_config := cosine_config; collection_entries := [] |}]> s).
  destruct (for_in_io_inv (write_batches float_str chunks_df embs)
              (fun _ batch => collection_add chroma name batch)
              (fun i st => st = <[name := {| collection_config := cosine_config;
                                             collection_entries := take (i * 100) all |}]> s)
              s0) as (s' & Hfor & Hs').
  { reflexivity. }
  { intros i b st Hb ->.
    destruct (write_batches_lookup _ _ _ _ Hlen Hb) as [Hi ->].
    set (rows := take 100 (drop (i * 100) chunks_df)).
    set (vs := take 100 (drop (i * 100) embs)).
    assert (Hrv : length vs = length rows).
    { subst rows vs. rewrite !length_take, !length_drop. lia. }
    assert (Hpos : 0 < length rows).
    { subst rows. rewrite length_take, length_drop. lia. }
    assert (Hids : chunk_id <$> rows = take 100 (drop (i * 100) (chunk_id <$> chunks_df))).
    { subst rows. now rewrite fmap_take, fmap_drop. }
    assert (Hknown : entry_id <$> take (i * 100) all = take (i * 100) (chunk_id <$> chunks_df)).
    { subst all. rewrite fmap_take, row_entries_ids by lia. reflexivity. }
    assert (Hsplit : NoDup (take (i * 100) (chunk_id <$> chunks_df)
                            ++ drop (i * 100) (chunk_id <$> chunks_df)))
      by now rewrite take_drop.
    apply NoDup_app in Hsplit as (_ & Hdisj & Hnd').
    eexists. split.
    - cbn [chroma collection_add]. rewrite lookup_insert_eq.
      rewrite batch_of_accepted by assumption.
      rewrite bool_decide_eq_true_2.
      + reflexivity.
      + cbn [ids batch_of]. rewrite Hids.
        eapply sublist_NoDup; [exact Hnd'|apply sublist_take].
    - rewrite insert_insert_eq. do 2 f_equal.
      cbn [collection_entries collection_config].
      rewrite batch_entries_rows, filter_all.
      + subst all rows vs. unfold row_entries.
        rewrite <- zip_with_take, <- zip_with_drop, take_take_drop.
        f_equal. lia.
      + apply Forall_forall. intros e He. apply bool_decide_eq_true_2.
        rewrite Hknown. intros Hin. apply (Hdisj _ Hin).
        apply (subseteq_take 100). rewrite <- Hids.
        rewrite <- (row_entries_ids rows vs) by lia.
        now apply list_elem_of_fmap_2. }
  exists s'. split.
  - unfold store_embeddings.
    rewrite (io_bind_ok _ _ _ _ _ (chroma_create_collection name s)).
    fold s0. rewrite (io_bind_ok _ _ _ _ _ Hfor). reflexivity.
  - rewrite Hs', lookup_insert_eq. do 2 f_equal.
    rewrite write_batches_length by exact Hlen.
    apply take_ge. subst all. unfold row_entries. rewrite length_zip_with.
    pose proof (batch_count_covers (length chunks_df) 100). lia.
Qed.

End Embedding.

(** ** The properties at concrete inputs *)
Section EmbeddingWitnesses.
Import PyStr EmbeddingGenerator StoreExamples StoreExamples2.

Lemma generate_embeddings_elementwise_witness :
  generate_embeddings length_encoder [py "mouse"; py "usb receiver"; py "two batteries"] 2
  = Ok (length <$> [py "mouse"; py "usb receiver"; py "two batteries"]).
Proof.
  apply (generate_embeddings_elementwise (vector := nat) length length_encoder
           [py "mouse"; py "usb receiver"; py "two batteries"] 2).
  - intros batch. reflexivity.
  - lia.
Defined.


Lemma store_embeddings_replaces_collection_witness :
  exists s',
    store_embeddings price_str chroma (sample_rows 3) [10; 11; 12]
      (py "product_embeddings") stale_store = (Ok (py "product_embeddings"), s') /\
    s' !! py "product_embeddings" =
      Some {| collection_config := cosine_config;
              collection_entries := row_entries price_str (sample_rows 3) [10; 11; 12] |}.
Proof.
  apply (proj2 (store_embeddings_replaces_collection price_str (sample_rows 3)
                  [10; 11; 12] (py "product_embeddings") stale_store)).
  - reflexivity.
  - apply (bool_decide_unpack _). vm_compute. exact I.
Defined.

(** C5, as stated, fails: of 101 rows with as many vectors, the last one
    carries the chunk id of the first.  The second [add] call finds that id
    in the collection and skips the row; [store_embeddings] returns, and
    the collection holds the entries of the first hundred rows only, none
    of them with the text of the last row. *)
Lemma store_embeddings_repeated_id :
  let run := store_embeddings price_str chroma repeated_rows (seq 0 101)
               (py "product_embeddings") stale_store in
  length repeated_rows = 101 /\
  run.1 = Ok (py "product_embeddings") /\
  collection_entries <$> run.2 !! py "product_embeddings"
    = Some (row_entries price_str (sample_rows 100) (seq 0 100)) /\
  existsb (fun e => bool_decide (entry_document e = text repeated_row))
    (row_entries price_str (sample_rows 100) (seq 0 100)) = false /\
  existsb (fun e => bool_decide (entry_document e = text repeated_row))
    (row_entries price_str repeated_rows (seq 0 101)) = true.
Proof.
  cbv zeta. repeat split; vm_compute; reflexivity.
Qed.

End EmbeddingWitnesses.

(** ** More facts about the string builtins *)
Section SplitJoin.
Import PyStr.

Lemma space_is_space : py " " = [32%N] /\ isspace 32 = true.
Proof. split; reflexivity. Qed.

Lemma split_cons_nonspace (c : N) (r : pystr) :
  isspace c = false -> split (c :: r) <> [].
Proof.
  intros Hc. simpl. rewrite Hc.
  destruct r as [|d r']; [discriminate|].
  destruct (isspace d); [discriminate|].
  destruct (split (d :: r')); discriminate.
Qed.

Lemma split_cons_space (c : N) (r : pystr) :
  isspace c = true -> split (c :: r) = split r.
Proof. intros Hc. simpl. now rewrite Hc. Qed.

Lemma split_cons_word (c d : N) (r : pystr) :
  isspace c = false ->
  split (c :: d :: r) =
    if isspace d then [c] :: split (d :: r)
    else match split (d :: r) with w :: ws => (c :: w) :: ws | [] => [[c]] end.
Proof. intros Hc. change (split (c :: d :: r)) with
    (if isspace c then split (d :: r)
     else if isspace d then [c] :: split (d :: r)
          else match split (d :: r) with w :: ws => (c :: w) :: ws | [] => [[c]] end).
  now rewrite Hc.
Qed.

(** Splitting around a whitespace code point. *)
Lemma split_app_space (a b : pystr) (sp : N) :
  isspace sp = true -> split (a ++ sp :: b) = split a ++ split b.
Proof.
  intros Hsp. induction a as [|c a IH].
  - simpl. now rewrite Hsp.
  - destruct (isspace c) eqn:Hc.
    + rewrite <- app_comm_cons, !split_cons_space by exact Hc. exact IH.
    + destruct a as [|d a'].
      * change ([c] ++ sp :: b) with (c :: sp :: b).
        rewrite split_cons_word by exact Hc. rewrite Hsp.
        rewrite split_cons_space by exact Hsp.
        simpl. now rewrite Hc.
      * change ((c :: d :: a') ++ sp :: b) with (c :: d :: (a' ++ sp :: b)).
        rewrite !split_cons_word by exact Hc.
        change (d :: a' ++ sp :: b) with ((d :: a') ++ sp :: b).
        rewrite IH.
        destruct (isspace d) eqn:Hd; [reflexivity|].
        pose proof (split_cons_nonspace d a' Hd) as Hne.
        destruct (split (d :: a')) as [|w ws]; [congruence|reflexivity].
Qed.

Lemma split_words (s : pystr) : Forall is_word (split s).
Proof.
  induction s as [|c s IH]; [constructor|].
  destruct (isspace c) eqn:Hc.
  - now rewrite split_cons_space.
  - destruct s as [|d s'].
    + simpl. rewrite Hc. repeat constructor; [discriminate|exact Hc].
    + rewrite split_cons_word by exact Hc.
      destruct (isspace d) eqn:Hd.
      * constructor; [|exact IH]. split; [discriminate|]. now repeat constructor.
      * destruct (split (d :: s')) as [|w ws].
        -- repeat constructor; [discriminate|exact Hc].
        -- inversion IH as [|? ? [Hw1 Hw2] Hws]; subst.
           constructor; [|exact Hws]. split; [discriminate|]. now constructor.
Qed.

Lemma split_word (w : pystr) : is_word w -> split w = [w].
Proof.
  intros [Hne Hall]. induction Hall as [|c w Hc Hall IH]; [congruence|].
  destruct w as [|d w'].
  - simpl. now rewrite Hc.
  - rewrite split_cons_word by exact Hc.
    inversion Hall as [|? ? Hd _]; subst. rewrite Hd.
    rewrite IH by discriminate. reflexivity.
Qed.

(** [' '.join(words).split()] gives the words back. *)
Lemma split_join (ws : list pystr) :
  Forall is_word ws -> split (join (py " ") ws) = ws.
Proof.
  induction 1 as [|w ws Hw Hws IH]; [reflexivity|].
  destruct ws as [|w' ws'].
  - simpl. now apply split_word.
  - change (join (py " ") (w :: w' :: ws'))
      with (w ++ py " " ++ join (py " ") (w' :: ws')).
    destruct space_is_space as [-> Hs].
    change (w ++ [32%N] ++ join [32%N] (w' :: ws'))
      with (w ++ 32%N :: join [32%N] (w' :: ws')).
    rewrite split_app_space by exact Hs.
    rewrite split_word by exact Hw.
    change [32%N] with (py " "). now rewrite IH.
Qed.

Lemma length_lstrip (s : pystr) : length (lstrip s) <= length s.
Proof.
  induction s as [|c s IH]; simpl; [lia|].
  destruct (isspace c); simpl; lia.
Qed.

Lemma length_rstrip (s : pystr) : length (rstrip s) <= length s.
Proof.
  induction s as [|c s IH]; simpl; [lia|].
  destruct (rstrip s); [destruct (isspace c)|]; simpl in *; lia.
Qed.

Lemma length_strip (s : pystr) : length (strip s) <= length s.
Proof.
  unfold strip. pose proof (length_rstrip (lstrip s)). pose proof (length_lstrip s). lia.
Qed.

(** [lstrip] keeps a suffix and [rstrip] a prefix. *)
Lemma lstrip_suffix (s : pystr) : exists a, s = a ++ lstrip s.
Proof.
  induction s as [|c s [a IH]]; [now exists []|].
  simpl. destruct (isspace c).
  - exists (c :: a). simpl. now rewrite <- IH.
  - now exists [].
Qed.

Lemma rstrip_prefix (s : pystr) : exists b, s = rstrip s ++ b.
Proof.
  induction s as [|c s [b IH]]; [now exists []|].
  simpl. destruct (rstrip s) as [|d r'] eqn:E.
  - destruct (isspace c).
    + exists (c :: s). reflexivity.
    + exists b. simpl. now rewrite IH at 1.
  - exists b. simpl. now rewrite IH at 1.
Qed.

Lemma strip_infix (s : pystr) : infix (strip s) s.
Proof.
  destruct (lstrip_suffix s) as [a Ha].
  destruct (rstrip_prefix (lstrip s)) as [b Hb].
  exists a, b. unfold strip. now rewrite <- Hb.
Qed.

Lemma infix_trans (a b c : pystr) : infix a b -> infix b c -> infix a c.
Proof.
  intros (x & y & ->) (u & v & ->).
  exists (u ++ x), (y ++ v). now rewrite <- !app_assoc.
Qed.

(** What holds of every code point survives stripping. *)
Lemma Forall_infix (P : N -> Prop) (a b : pystr) :
  infix a b -> Forall P b -> Forall P a.
Proof.
  intros (x & y & ->) H.
  apply Forall_app in H as [_ H]. now apply Forall_app in H as [H _].
Qed.

Lemma Forall_strip (P : N -> Prop) (s : pystr) : Forall P s -> Forall P (strip s).
Proof. apply Forall_infix, strip_infix. Qed.

End SplitJoin.

(** ** More invariants of the loop of [chunk_text] *)
Section LoopInvariants.
Import PyStr TextProcessor.

Variable self : TextProcessor.
Variable product_id : pystr.

Lemma fold_left_inv_in {S A : Type} (f : S -> A -> S) (P : S -> Prop) (l : list A) (s : S) :
  P s -> (forall s a, a ∈ l -> P s -> P (f s a)) -> P (fold_left f l s).
Proof.
  revert s. induction l as [|a l IH]; intros s Hs Hstep; simpl; [exact Hs|].
  apply IH.
  - apply Hstep; [apply list_elem_of_here|exact Hs].
  - intros t b Hb. apply Hstep. now apply list_elem_of_further.
Qed.

(** The three ways through the body of the loop. *)
Lemma loop_body_cases (st : loop_state) (sentence : pystr) :
  let s := strip sentence in
  let overlap_text := _get_overlap self (current_chunk st) in
  let seeded := if truthy overlap_text then overlap_text ++ py " " ++ s else s in
  (truthy s = false /\ loop_body self product_id st sentence = st)
  \/ (truthy s = true /\ exceeds self st s = true /\
      loop_body self product_id st sentence =
        {| chunks := chunks st ++ [make_chunk (strip (current_chunk st)) product_id
                                     (next_index st) (current_word_count st)];
           current_chunk := seeded;
           current_word_count := length (split seeded);
           next_index := next_index st + 1 |})
  \/ (truthy s = true /\ exceeds self st s = false /\
      loop_body self product_id st sentence =
        {| chunks := chunks st;
           current_chunk :=
             current_chunk st ++ (if truthy (current_chunk st) then py " " ++ s else s);
           current_word_count := current_word_count st + length (split s);
           next_index := next_index st |}).
Proof.
  cbv zeta. unfold loop_body.
  destruct (truthy (strip sentence)); cbn [negb]; [|now left].
  right. destruct (exceeds self st (strip sentence)); [left|right]; now repeat split.
Qed.

Lemma word_stripped (w : pystr) : is_word w -> stripped w.
Proof.
  intros [Hne Hall]. split; [exact Hne|]. split.
  - destruct Hall as [|c w Hc _]; [congruence|]. now apply lstrip_cons_nonspace.
  - clear Hne. induction Hall as [|c w Hc Hall IH]; [reflexivity|].
    simpl. rewrite IH. destruct w; [now rewrite Hc|reflexivity].
Qed.

Lemma stripped_app (a m b : pystr) : stripped a -> stripped b -> stripped (a ++ m ++ b).
Proof.
  intros Ha (Hb0 & _ & Hb). split; [|split].
  - destruct Ha as [Ha _]. now destruct a.
  - destruct (stripped_head _ Ha) as (c & r & -> & Hc).
    now apply lstrip_cons_nonspace.
  - rewrite app_assoc, rstrip_app, Hb. now destruct b.
Qed.

Lemma join_stripped (ws : list pystr) :
  ws <> [] -> Forall is_word ws -> stripped (join (py " ") ws).
Proof.
  intros Hne Hall. induction Hall as [|w ws Hw Hws IH]; [congruence|].
  destruct ws as [|w' ws'].
  - now apply word_stripped.
  - change (join (py " ") (w :: w' :: ws'))
      with (w ++ py " " ++ join (py " ") (w' :: ws')).
    apply stripped_app; [now apply word_stripped|]. now apply IH.
Qed.

Lemma slice_from_words (start : Z) (s : pystr) : Forall is_word (slice_from start (split s)).
Proof.
  unfold slice_from. destruct (start <? 0)%Z; apply Forall_drop, split_words.
Qed.

(** The words of the overlap are a slice of the words of the text. *)
Lemma get_overlap_words (t : pystr) :
  split (_get_overlap self t) =
    if (Z.of_nat (length (split t)) >? overlap_size self)%Z
    then slice_from (- overlap_size self) (split t)
    else [].
Proof.
  unfold _get_overlap. destruct t as [|c t]; cbn [truthy negb].
  - change (split (py "")) with (@nil pystr). change (split []) with (@nil pystr).
    destruct (_ >? _)%Z; [|reflexivity].
    unfold slice_from. destruct (_ <? _)%Z; now rewrite drop_nil.
  - destruct (_ >? _)%Z; [|reflexivity].
    apply split_join, slice_from_words.
Qed.

Lemma get_overlap_stripped (t : pystr) :
  truthy (_get_overlap self t) = true -> stripped (_get_overlap self t).
Proof.
  unfold _get_overlap. destruct (truthy t); cbn [negb]; [|discriminate].
  destruct (_ >? _)%Z; [|discriminate].
  intros Ht. apply join_stripped; [|apply slice_from_words].
  intros E. rewrite E in Ht. discriminate.
Qed.

(** For a positive [overlap_size] the overlap is made of the last
    [overlap_size] words, or is empty. *)
Lemma get_overlap_positive (t : pystr) :
  (0 < overlap_size self)%Z ->
  _get_overlap self t =
    if (overlap_size self <? Z.of_nat (length (split t)))%Z
    then join (py " ") (last_words (Z.to_nat (overlap_size self)) (split t))
    else py "".
Proof.
  intros Hov. unfold _get_overlap. rewrite Z.gtb_ltb.
  destruct t as [|c t]; cbn [truthy negb].
  - change (split []) with (@nil pystr).
    assert (H : (overlap_size self <? Z.of_nat (length (@nil pystr)))%Z = false)
      by (apply Z.ltb_ge; simpl; lia).
    now rewrite H.
  - destruct (_ <? _)%Z eqn:Hlen; [|reflexivity].
    apply Z.ltb_lt in Hlen. f_equal. unfold slice_from, last_words.
    assert (H0 : (- overlap_size self <? 0)%Z = true) by (apply Z.ltb_lt; lia).
    rewrite H0. f_equal. lia.
Qed.

Lemma buffer_ok_init : buffer_ok loop_init.
Proof. split; [reflexivity|now left]. Qed.

Lemma exceeds_truthy (st : loop_state) (s : pystr) :
  exceeds self st s = true -> truthy (current_chunk st) = true.
Proof. unfold exceeds. intros H. now apply andb_true_iff in H as [_ ?]. Qed.

Lemma split_sep (a b : pystr) : split (a ++ py " " ++ b) = split a ++ split b.
Proof.
  destruct space_is_space as [-> Hs].
  change (a ++ [32%N] ++ b) with (a ++ 32%N :: b). now apply split_app_space.
Qed.

Lemma loop_body_buffer_ok (st : loop_state) (sentence : pystr) :
  buffer_ok st -> buffer_ok (loop_body self product_id st sentence).
Proof.
  intros [Hwc Hstr].
  assert (Hs : truthy (strip sentence) = true -> stripped (strip sentence)).
  { intros Ht. apply strip_stripped. now apply truthy_true. }
  destruct (loop_body_cases st sentence) as [(_ & ->)|[(Ht & Hex & ->)|(Ht & Hex & ->)]].
  - now split.
  - split; cbn [current_word_count current_chunk]; [reflexivity|]. right.
    destruct (truthy (_get_overlap self (current_chunk st))) eqn:Hov; [|now apply Hs].
    apply stripped_app; [now apply get_overlap_stripped|now apply Hs].
  - split; cbn [current_word_count current_chunk].
    + destruct (current_chunk st) as [|c cur] eqn:Hcur; cbn [truthy].
      * rewrite Hwc. reflexivity.
      * rewrite split_sep, length_app, Hwc. reflexivity.
    + right. destruct Hstr as [->|Hstr]; [now apply Hs|].
      assert (Hcur : truthy (current_chunk st) = true)
        by (apply truthy_true; now destruct Hstr).
      rewrite Hcur. apply stripped_app; [exact Hstr|now apply Hs].
Qed.

Lemma run_loop_buffer_ok (sentences : list pystr) :
  buffer_ok (run_loop self product_id sentences).
Proof.
  unfold run_loop. apply fold_left_inv; [apply buffer_ok_init|].
  intros st a. apply loop_body_buffer_ok.
Qed.

(** A chunk made from a non-empty consistent buffer is well formed. *)
Lemma make_chunk_ok (st : loop_state) :
  buffer_ok st -> truthy (current_chunk st) = true ->
  chunk_ok product_id
    (make_chunk (strip (current_chunk st)) product_id (next_index st) (current_word_count st)).
Proof.
  intros [Hwc Hstr] Ht. unfold chunk_ok. cbn [word_count text make_chunk TextProcessor.product_id].
  rewrite split_strip. split; [exact Hwc|]. split; [reflexivity|].
  apply strip_stripped. destruct Hstr as [E|Hstr].
  - rewrite E in Ht. discriminate.
  - rewrite (stripped_strip _ Hstr). now destruct Hstr.
Qed.

Lemma loop_body_chunks_ok (st : loop_state) (sentence : pystr) :
  buffer_ok st -> Forall (chunk_ok product_id) (chunks st) ->
  Forall (chunk_ok product_id) (chunks (loop_body self product_id st sentence)).
Proof.
  intros Hb Hcs.
  destruct (loop_body_cases st sentence) as [(_ & ->)|[(Ht & Hex & ->)|(Ht & Hex & ->)]];
    cbn [chunks]; try exact Hcs.
  apply Forall_app. split; [exact Hcs|]. constructor; [|constructor].
  apply make_chunk_ok; [exact Hb|now apply exceeds_truthy in Hex].
Qed.

Lemma run_loop_chunks_ok (sentences : list pystr) :
  Forall (chunk_ok product_id) (chunks (run_loop self product_id sentences)).
Proof.
  assert (H : buffer_ok (run_loop self product_id sentences) /\
              Forall (chunk_ok product_id) (chunks (run_loop self product_id sentences))).
  { unfold run_loop. apply (fold_left_inv _ (fun st => buffer_ok st /\ Forall (chunk_ok product_id) (chunks st))).
    - split; [apply buffer_ok_init|constructor].
    - intros st a [Hb Hcs]. split; [now apply loop_body_buffer_ok|now apply loop_body_chunks_ok]. }
  apply H.
Qed.

End LoopInvariants.

(** ** The shape of the result of [chunk_text] *)
Section ChunkTextShape.
Import PyStr TextProcessor.

Variable sent_tokenize : pystr -> result (list pystr).
Variable self : TextProcessor.
Variable product_id : pystr.

(** The three outcomes of the splitting path: the final buffer is
    appended, or dropped after a chunk was closed, or replaced by the
    whole normalised text. *)
Lemma chunk_text_split_path (input : pystr) :
  is_short self input = false ->
  let st := run_loop self product_id (tokenize sent_tokenize input) in
  let final := make_chunk (strip (current_chunk st)) product_id (next_index st)
                 (current_word_count st) in
  let whole := make_chunk (_clean_text input) product_id 0
                 (length (split (_clean_text input))) in
  (truthy (current_chunk st) = true /\ 30 <= current_word_count st /\
   chunk_text sent_tokenize self input product_id = chunks st ++ [final])
  \/ ((truthy (current_chunk st) = false \/ current_word_count st < 30) /\
      chunks st <> [] /\
      chunk_text sent_tokenize self input product_id = chunks st)
  \/ ((truthy (current_chunk st) = false \/ current_word_count st < 30) /\
      chunks st = [] /\
      chunk_text sent_tokenize self input product_id = [whole]).
Proof.
  intros Hshort st final whole. unfold chunk_text. rewrite Hshort.
  change (try_except (sent_tokenize (_clean_text input))
            (_simple_sentence_split (_clean_text input)))
    with (tokenize sent_tokenize input).
  fold st. cbv zeta. fold final. fold whole.
  destruct (truthy (current_chunk st)) eqn:Ht; cbn [andb].
  - destruct (30 <=? current_word_count st) eqn:Hwc.
    + left. apply Nat.leb_le in Hwc. split; [reflexivity|]. split; [exact Hwc|].
      now destruct (chunks st).
    + right. apply Nat.leb_gt in Hwc.
      destruct (chunks st) eqn:E; [right|left]; (split; [now right|]); now split.
  - right. destruct (chunks st) eqn:E; [right|left]; (split; [now left|]); now split.
Qed.

Lemma chunk_text_short_path (input : pystr) :
  is_short self input = true ->
  chunk_text sent_tokenize self input product_id =
    [make_chunk input product_id 0 (length (split input))].
Proof.
  intros Hshort. unfold chunk_text. rewrite Hshort. now destruct input.
Qed.

End ChunkTextShape.

Section Chain.
Context {A : Type} (R : A -> A -> Prop).

Lemma chain_snoc (l : list A) (x : A) :
  chain R l -> (forall y, last l = Some y -> R y x) -> chain R (l ++ [x]).
Proof.
  induction l as [|a l IH]; intros Hl Hx; [exact I|].
  destruct l as [|b l'].
  - simpl. split; [now apply Hx|exact I].
  - destruct Hl as [Hab Hl]. split; [exact Hab|].
    apply IH; [exact Hl|]. intros y Hy. apply Hx. exact Hy.
Qed.

Lemma chain_lookup (l : list A) (i : nat) (a b : A) :
  chain R l -> l !! i = Some a -> l !! S i = Some b -> R a b.
Proof.
  revert i. induction l as [|x l IH]; intros i Hl Ha Hb; [discriminate|].
  destruct l as [|y l']; [discriminate|].
  destruct Hl as [Hxy Hl]. destruct i as [|i].
  - simpl in Ha, Hb. now injection Ha as <-; injection Hb as <-.
  - apply (IH i Hl); assumption.
Qed.

End Chain.

(** ** Facts about the replacements of [_clean_text] and the pieces of
    [re.split] *)
Section Replacements.
Import PyStr.

Lemma replace_absent (old : N) (new s : pystr) :
  Forall (fun c => c <> old) s -> replace old new s = s.
Proof.
  unfold replace. induction 1 as [|c s Hc _ IH]; [reflexivity|].
  simpl. apply N.eqb_neq in Hc. rewrite Hc. simpl. now rewrite IH.
Qed.

Lemma Forall_replace (P : N -> Prop) (old : N) (new s : pystr) :
  Forall P new -> Forall (fun c => c <> old -> P c) s -> Forall P (replace old new s).
Proof.
  intros Hnew. unfold replace. induction 1 as [|c s Hc _ IH]; [constructor|].
  simpl. apply Forall_app. split; [|exact IH].
  destruct (c =? old)%N eqn:E; [exact Hnew|].
  constructor; [|constructor]. apply Hc. now apply N.eqb_neq.
Qed.

Lemma Forall_squeeze (P : N -> Prop) (cls : N -> bool) (rep : N) (s : pystr) :
  P rep -> Forall (fun c => cls c = false -> P c) s -> Forall P (squeeze cls rep s).
Proof.
  intros Hrep. induction 1 as [|c s Hc Hs IH]; [constructor|].
  simpl. destruct (cls c) eqn:E.
  - destruct s as [|d s']; [now repeat constructor|].
    destruct (cls d); [exact IH|]. now constructor.
  - constructor; [now apply Hc|exact IH].
Qed.

Lemma squeeze_head (cls : N -> bool) (rep c : N) (s : pystr) :
  cls c = false -> squeeze cls rep (c :: s) = c :: squeeze cls rep s.
Proof. intros H. simpl. now rewrite H. Qed.

(** After [squeeze], no two neighbours are both in the class. *)
Lemma squeeze_no_run (cls : N -> bool) (rep : N) (s : pystr) :
  no_run cls (squeeze cls rep s).
Proof.
  induction s as [|c s IH]; [exact I|].
  destruct (cls c) eqn:Hc.
  - destruct s as [|d s'].
    + simpl. rewrite Hc. exact I.
    + destruct (cls d) eqn:Hd.
      * change (squeeze cls rep (c :: d :: s'))
          with (if cls c then if cls d then squeeze cls rep (d :: s')
                              else rep :: squeeze cls rep (d :: s')
                else c :: squeeze cls rep (d :: s')).
        rewrite Hc, Hd. exact IH.
      * change (squeeze cls rep (c :: d :: s'))
          with (if cls c then if cls d then squeeze cls rep (d :: s')
                              else rep :: squeeze cls rep (d :: s')
                else c :: squeeze cls rep (d :: s')).
        rewrite Hc, Hd. rewrite squeeze_head in IH |- * by exact Hd.
        split; [|exact IH]. rewrite Hd. apply andb_false_r.
  - rewrite squeeze_head by exact Hc.
    destruct (squeeze cls rep s) as [|e r] eqn:E; [exact I|].
    split; [|exact IH]. now rewrite Hc.
Qed.

Lemma no_run_app_r (cls : N -> bool) (a b : pystr) : no_run cls (a ++ b) -> no_run cls b.
Proof.
  induction a as [|c a IH]; [trivial|].
  intros H. apply IH. simpl in H. destruct (a ++ b); [exact I|apply H].
Qed.

Lemma no_run_app_l (cls : N -> bool) (a b : pystr) : no_run cls (a ++ b) -> no_run cls a.
Proof.
  induction a as [|c a IH]; [intros _; exact I|].
  intros H. destruct a as [|d a']; [exact I|].
  destruct H as [Hcd H]. split; [exact Hcd|]. now apply IH.
Qed.

Lemma no_run_infix (cls : N -> bool) (a b : pystr) :
  infix a b -> no_run cls b -> no_run cls a.
Proof.
  intros (x & y & ->) H. apply no_run_app_r in H. now apply no_run_app_l in H.
Qed.

Lemma no_run_not_contains (cls : N -> bool) (c d : N) (s : pystr) :
  cls c = true -> cls d = true -> no_run cls s -> contains [c; d] s = false.
Proof.
  intros Hc Hd Hs. destruct (contains [c; d] s) eqn:E; [|reflexivity].
  apply contains_spec in E. apply (no_run_infix cls _ _ E) in Hs.
  destruct Hs as [H _]. rewrite Hc, Hd in H. discriminate.
Qed.

Lemma re_split_separator_first (cls : N -> bool) (c : N) (s : pystr) :
  cls c = true -> exists ps, re_split cls (c :: s) = [] :: ps.
Proof.
  revert c. induction s as [|d s IH]; intros c Hc.
  - simpl. rewrite Hc. now exists [[]].
  - change (re_split cls (c :: d :: s))
      with (if cls c then if cls d then re_split cls (d :: s) else [] :: re_split cls (d :: s)
            else match re_split cls (d :: s) with p :: ps => (c :: p) :: ps | [] => [[c]] end).
    rewrite Hc. destruct (cls d) eqn:Hd; [now apply IH|].
    now exists (re_split cls (d :: s)).
Qed.

(** The pieces of [re.split]: the first is a prefix of the text, every
    piece occurs in the text, and none holds a separator. *)
Lemma re_split_pieces (cls : N -> bool) (s : pystr) :
  (exists p ps rest, re_split cls s = p :: ps /\ s = p ++ rest) /\
  Forall (fun p => infix p s /\ Forall (fun c => cls c = false) p) (re_split cls s).
Proof.
  induction s as [|c s [(p & ps & rest & Hp & Hrest) IH]].
  - split; [now exists [], [], []|]. repeat constructor. now exists [], [].
  - assert (Hweak : Forall (fun p => infix p (c :: s) /\ Forall (fun c => cls c = false) p)
                      (re_split cls s)).
    { eapply Forall_impl; [exact IH|]. intros q [Hq1 Hq2]. split; [|exact Hq2].
      now apply (infix_app_l _ _ [c]). }
    assert (Hnil : infix [] (c :: s) /\ Forall (fun c => cls c = false) (@nil N)).
    { split; [now exists [], (c :: s)|constructor]. }
    destruct (cls c) eqn:Hc.
    + destruct (re_split_separator_first cls c s Hc) as [qs Hqs].
      split; [now exists [], qs, (c :: s)|].
      destruct s as [|d s'].
      * simpl. rewrite Hc. now repeat constructor.
      * change (re_split cls (c :: d :: s'))
          with (if cls c then if cls d then re_split cls (d :: s')
                              else [] :: re_split cls (d :: s')
                else match re_split cls (d :: s') with
                     | p :: ps => (c :: p) :: ps | [] => [[c]] end).
        rewrite Hc. destruct (cls d); [exact Hweak|now constructor].
    + simpl. rewrite Hc, Hp. split.
      * exists (c :: p), ps, rest. split; [reflexivity|]. simpl. now rewrite Hrest.
      * rewrite Hp in IH, Hweak.
        inversion IH as [|? ? [Hp1 Hp2] _]; subst.
        inversion Hweak as [|? ? _ Hps]; subst.
        constructor; [|exact Hps]. split.
        -- exists [], rest. reflexivity.
        -- now constructor.
Qed.

End Replacements.

(** ** Decimal rendering and chunk identifiers *)
Section ChunkIds.
Import PyStr TextProcessor.

Lemma py_cons (a : ascii) (s : string) : py (String a s) = N_of_ascii a :: py s.
Proof. reflexivity. Qed.

Lemma py_inj (s1 s2 : string) : py s1 = py s2 -> s1 = s2.
Proof.
  revert s2. induction s1 as [|a s1 IH]; intros [|b s2]; try discriminate; [reflexivity|].
  rewrite !py_cons. intros [= Hab Hs].
  f_equal; [|now apply IH].
  rewrite <- (ascii_N_embedding a), <- (ascii_N_embedding b). now rewrite Hab.
Qed.

Lemma uint_digits (d : Decimal.uint) : Forall is_digit (py (NilEmpty.string_of_uint d)).
Proof.
  induction d; simpl NilEmpty.string_of_uint; [constructor|..];
    rewrite py_cons; (constructor; [unfold is_digit; simpl; lia|exact IHd]).
Qed.

Lemma to_uint_nonnil (n : nat) : Nat.to_uint n <> Decimal.Nil.
Proof.
  intros E. pose proof (DecimalNat.Unsigned.to_of (Nat.to_uint n)) as H.
  rewrite DecimalNat.Unsigned.of_to, E in H. discriminate H.
Qed.

Lemma str_of_nat_digits (n : nat) : Forall is_digit (str_of_nat n).
Proof.
  unfold str_of_nat, NilZero.string_of_uint.
  pose proof (to_uint_nonnil n) as Hn.
  destruct (Nat.to_uint n) eqn:E; [congruence|..]; rewrite <- E; apply uint_digits.
Qed.

Lemma str_of_nat_inj (n m : nat) : str_of_nat n = str_of_nat m -> n = m.
Proof.
  unfold str_of_nat. intros H. apply py_inj in H.
  apply (f_equal NilZero.uint_of_string) in H.
  rewrite !NilZero.usu in H by apply to_uint_nonnil.
  injection H as H. now apply DecimalNat.Unsigned.to_uint_inj.
Qed.

(** Two strings that end with a separator and digits agree on both
    parts. *)
Lemma digit_suffix_inj (sep : N) (a1 a2 d1 d2 : pystr) :
  ~ is_digit sep -> Forall is_digit d1 -> Forall is_digit d2 ->
  a1 ++ sep :: d1 = a2 ++ sep :: d2 -> a1 = a2 /\ d1 = d2.
Proof.
  intros Hsep H1 H2 E.
  assert (Hrev : forall e1 e2 r1 r2 : pystr,
            Forall is_digit e1 -> Forall is_digit e2 ->
            e1 ++ sep :: r1 = e2 ++ sep :: r2 -> e1 = e2 /\ r1 = r2).
  { induction e1 as [|y e1 IH]; intros [|z e2] r1 r2 He1 He2 Heq.
    - now injection Heq as ->.
    - injection Heq as -> _. inversion He2; subst. contradiction.
    - injection Heq as -> _. inversion He1; subst. contradiction.
    - injection Heq as -> Heq. inversion He1; inversion He2; subst.
      destruct (IH e2 r1 r2) as [-> ->]; auto. }
  apply (f_equal (@rev N)) in E.
  rewrite !rev_app_distr in E. simpl in E. rewrite <- !app_assoc in E. simpl in E.
  destruct (Hrev (rev d1) (rev d2) (rev a1) (rev a2)) as [Hd Ha];
    [now apply Forall_rev|now apply Forall_rev|exact E|].
  apply (f_equal (@rev N)) in Hd, Ha. rewrite !rev_involutive in Hd, Ha.
  now split.
Qed.

Lemma format_chunk_id_parts (p1 p2 : pystr) (k1 k2 : nat) :
  format_chunk_id p1 k1 = format_chunk_id p2 k2 -> p1 = p2 /\ k1 = k2.
Proof.
  unfold format_chunk_id.
  assert (Hfmt : forall p k, p ++ py "_chunk_" ++ str_of_nat k
                             = (p ++ py "_chunk") ++ 95%N :: str_of_nat k).
  { intros p k. change (py "_chunk_") with (py "_chunk" ++ [95%N]).
    now rewrite <- !app_assoc. }
  rewrite !Hfmt. intros E.
  apply digit_suffix_inj in E as [Hp Hk];
    [|unfold is_digit; lia|apply str_of_nat_digits|apply str_of_nat_digits].
  split; [now apply app_inv_tail in Hp|now apply str_of_nat_inj].
Qed.

End ChunkIds.

(** ** Indices and identifiers of the result of [chunk_text] *)
Section ChunkTextIds.
Import PyStr TextProcessor.

Variable sent_tokenize : pystr -> result (list pystr).
Variable self : TextProcessor.

Lemma chunk_text_cons (input product_id : pystr) :
  exists c cs, chunk_text sent_tokenize self input product_id = c :: cs.
Proof.
  destruct (is_short self input) eqn:Hshort.
  - rewrite chunk_text_short_path by exact Hshort. now eexists _, _.
  - destruct (chunk_text_split_path sent_tokenize self product_id input Hshort)
      as [(_ & _ & E)|[(_ & Hne & E)|(_ & _ & E)]]; rewrite E.
    + destruct (chunks _); now eexists _, _.
    + destruct (chunks _); [congruence|now eexists _, _].
    + now eexists _, _.
Qed.

Lemma chunk_text_well_indexed (input product_id : pystr) :
  well_indexed product_id (chunk_text sent_tokenize self input product_id).
Proof.
  assert (Hone : forall t wc, well_indexed product_id [make_chunk t product_id 0 wc]).
  { intros t wc. split; [reflexivity|]. now repeat constructor. }
  destruct (is_short self input) eqn:Hshort.
  - rewrite chunk_text_short_path by exact Hshort. apply Hone.
  - destruct (run_loop_index_inv self product_id (tokenize sent_tokenize input)) as [Hn Hw].
    destruct (chunk_text_split_path sent_tokenize self product_id input Hshort)
      as [(_ & _ & E)|[(_ & _ & E)|(_ & _ & E)]]; rewrite E.
    + rewrite Hn. now apply well_indexed_snoc.
    + exact Hw.
    + apply Hone.
Qed.

(** The identifiers of the result, in order. *)
Lemma chunk_text_ids (input product_id : pystr) :
  chunk_id <$> chunk_text sent_tokenize self input product_id =
    format_chunk_id product_id
      <$> seq 0 (length (chunk_text sent_tokenize self input product_id)).
Proof.
  destruct (chunk_text_well_indexed input product_id) as [Hidx Hid].
  change (map chunk_index (chunk_text sent_tokenize self input product_id))
    with (chunk_index <$> chunk_text sent_tokenize self input product_id) in Hidx.
  rewrite <- Hidx, <- list_fmap_compose.
  apply list_fmap_ext. intros i c Hc. rewrite Forall_forall in Hid.
  apply Hid. apply list_elem_of_lookup. now exists i.
Qed.

End ChunkTextIds.

Section JoinEnds.
Import PyStr.

Lemma join_cons_prefix (sep p : pystr) (l : list pystr) :
  exists rest, join sep (p :: l) = p ++ rest.
Proof.
  destruct l as [|q l]; [exists []; simpl; now rewrite app_nil_r|].
  now exists (sep ++ join sep (q :: l)).
Qed.

Lemma join_snoc_suffix (sep p : pystr) (l : list pystr) :
  exists pre, join sep (l ++ [p]) = pre ++ p.
Proof.
  induction l as [|q l [pre IH]]; [now exists []|].
  destruct l as [|q' l'].
  - exists (q ++ sep). simpl. now rewrite <- app_assoc.
  - exists (q ++ sep ++ pre).
    change (join sep ((q :: q' :: l') ++ [p]))
      with (q ++ sep ++ join sep ((q' :: l') ++ [p])).
    rewrite IH. now rewrite <- !app_assoc.
Qed.

End JoinEnds.

(** ** More about the loops of [generate_embeddings] and [store_embeddings] *)
Section LoopsMore.

(** A loop in which the [i]-th iteration takes a state satisfying [I i]
    to one satisfying [I (i + 1)] without raising. *)
Lemma for_in_result_inv {A St : Type} (xs : list A) (body : St -> A -> result St)
    (I : nat -> St -> Prop) (s : St) :
  I 0 s ->
  (forall i x s, xs !! i = Some x -> I i s -> exists s', body s x = Ok s' /\ I (S i) s') ->
  exists s', for_in xs body s = Ok s' /\ I (length xs) s'.
Proof.
  revert I s. induction xs as [|x xs IH]; intros I s H0 Hstep.
  - exists s. now split.
  - destruct (Hstep 0 x s eq_refl H0) as (s1 & Hb & H1).
    destruct (IH (fun i => I (S i)) s1 H1) as (s' & Hf & Hs').
    { intros i y t Hy Hi. now apply (Hstep (S i) y t). }
    exists s'. split; [|exact Hs'].
    simpl. rewrite Hb. exact Hf.
Qed.

(** The first iteration that raises ends the loop with its exception. *)
Lemma for_in_result_raise {A St : Type} (xs : list A) (body : St -> A -> result St)
    (k : nat) (x : A) (e : exn) (s : St) :
  xs !! k = Some x ->
  (forall j y t, j < k -> xs !! j = Some y -> exists t', body t y = Ok t') ->
  (forall t, body t x = Raise e) ->
  for_in xs body s = Raise e.
Proof.
  revert k s. induction xs as [|y xs IH]; intros k s Hk Hbefore Hx; [discriminate|].
  destruct k as [|k].
  - injection Hk as ->. simpl. now rewrite Hx.
  - destruct (Hbefore 0 y s) as [t' Ht']; [lia|reflexivity|].
    simpl. rewrite Ht'. simpl.
    apply (IH k); [exact Hk| |exact Hx].
    intros j z t Hj Hz. apply (Hbefore (S j) z t); [lia|exact Hz].
Qed.

Lemma for_in_io_app {store A : Type} (l1 l2 : list A) (body : unit -> A -> io store unit)
    (s : store) :
  for_in (l1 ++ l2) body tt s =
    match for_in l1 body tt s with
    | (Ok _, s') => for_in l2 body tt s'
    | (Raise e, s') => (Raise e, s')
    end.
Proof.
  revert s. induction l1 as [|x l1 IH]; intros s; [reflexivity|].
  change (for_in ((x :: l1) ++ l2) body tt s)
    with ((state' ← body tt x; for_in (l1 ++ l2) body state') s).
  change (for_in (x :: l1) body tt s)
    with ((state' ← body tt x; for_in l1 body state') s).
  unfold mbind, io_bind.
  destruct (body tt x s) as [[[]|e] s1]; [apply IH|reflexivity].
Qed.

Lemma io_bind_raise {store A B : Type} (f : A -> io store B) (m : io store A)
    (s s' : store) (e : exn) :
  m s = (Raise e, s') -> (a ← m; f a) s = (Raise e, s').
Proof. intros H. unfold mbind, io_bind. now rewrite H. Qed.

Lemma for_in_io_cons_raise {store A : Type} (x : A) (l : list A)
    (body : unit -> A -> io store unit) (e : exn) (s s' : store) :
  body tt x s = (Raise e, s') -> for_in (x :: l) body tt s = (Raise e, s').
Proof.
  intros H.
  change (for_in (x :: l) body tt s) with ((state' ← body tt x; for_in l body state') s).
  unfold mbind, io_bind. now rewrite H.
Qed.

Lemma zip_with_take_min {A B C : Type} (f : A -> B -> C) (a b : nat) (l : list A) (k : list B) :
  zip_with f (take a l) (take b k) = take (min a b) (zip_with f l k).
Proof.
  revert b l k. induction a as [|a IH]; intros [|b] [|x l] [|y k]; try reflexivity.
  simpl. f_equal. apply IH.
Qed.

End LoopsMore.

Section StoreMore.
Import PyStr EmbeddingGenerator.

Context {vector : Type}.
Variable float_str : float -> pystr.

Lemma write_batches_general (chunks_df : list chunk_row) (embs : list vector) :
  write_batches float_str chunks_df embs =
    kth_batch float_str chunks_df embs <$> seq 0 (batch_count (length chunks_df) 100).
Proof.
  unfold write_batches, kth_batch. cbv zeta.
  rewrite length_fmap, range_batches by lia.
  rewrite <- list_fmap_compose. apply list_fmap_ext. intros _ k _.
  unfold compose. cbv beta.
  rewrite Nat2Z.id. unfold batch_of.
  rewrite <- (length_fmap text chunks_df) at 2. rewrite slice_min.
  rewrite <- (length_fmap (row_metadata float_str) chunks_df) at 2. rewrite slice_min.
  rewrite <- (length_fmap chunk_id chunks_df) at 2. rewrite slice_min.
  rewrite !fmap_take, !fmap_drop. f_equal.
  unfold slice. f_equal. lia.
Qed.

Lemma write_batches_take (chunks_df : list chunk_row) (embs : list vector) :
  write_batches float_str chunks_df embs =
    write_batches float_str chunks_df (take (length chunks_df) embs).
Proof.
  rewrite !write_batches_general. apply list_fmap_ext. intros _ k _.
  unfold kth_batch. f_equal.
  rewrite skipn_firstn_comm, take_take. f_equal. lia.
Qed.

Lemma kth_batch_entries (chunks_df : list chunk_row) (embs : list vector) (k : nat) :
  batch_entries (kth_batch float_str chunks_df embs k) =
    take 100 (drop (k * 100) (row_entries float_str chunks_df embs)).
Proof.
  unfold kth_batch. rewrite batch_entries_rows. unfold row_entries.
  rewrite zip_with_take_min, <- zip_with_drop.
  set (X := drop (k * 100) (zip_with (row_entry float_str) chunks_df embs)).
  assert (HX : length X <= length chunks_df - k * 100).
  { subst X. rewrite length_drop, length_zip_with. lia. }
  destruct (decide (100 <= length chunks_df - k * 100)) as [H|H].
  - f_equal. lia.
  - rewrite !take_ge; [reflexivity|lia|lia].
Qed.

Lemma entry_ids_prefix (chunks_df : list chunk_row) (embs : list vector) (m : nat) (x : pystr) :
  x ∈ entry_id <$> take m (row_entries float_str chunks_df embs) ->
  x ∈ take m (chunk_id <$> chunks_df).
Proof.
  intros Hx. apply list_elem_of_fmap in Hx as (e & -> & He).
  apply elem_of_take in He as (j & He & Hj).
  apply lookup_zip_with_Some in He as (row & v & -> & Hrow & _).
  apply elem_of_take. exists j. split; [|exact Hj].
  rewrite list_lookup_fmap, Hrow. reflexivity.
Qed.

(** A call whose slice of vectors is as long as its slice of rows is
    accepted by the store and appends the entries of the slice. *)
Lemma chroma_add_complete (chunks_df : list chunk_row) (embs : list vector) (k : nat)
    (name : pystr) (config : hnsw_config) (s : gmap pystr (collection vector)) :
  NoDup (chunk_id <$> chunks_df) ->
  k * 100 < length chunks_df ->
  min 100 (length chunks_df - k * 100) <= length embs - k * 100 ->
  s !! name = Some {| collection_config := config;
                      collection_entries :=
                        take (k * 100) (row_entries float_str chunks_df embs) |} ->
  collection_add chroma name (kth_batch float_str chunks_df embs k) s =
    (Ok tt,
     <[name := {| collection_config := config;
                  collection_entries :=
                    take (S k * 100) (row_entries float_str chunks_df embs) |}]> s).
Proof.
  intros Hnd Hk Hvs Hs.
  cbn [chroma collection_add]. rewrite Hs.
  assert (Hacc : (length (ids (kth_batch float_str chunks_df embs k)) =? 0)
                 || negb (same_lengths (kth_batch float_str chunks_df embs k)) = false).
  { unfold kth_batch. apply batch_of_accepted.
    - rewrite !length_take, !length_drop. lia.
    - rewrite length_take, length_drop. lia. }
  rewrite Hacc.
  assert (Hids : ids (kth_batch float_str chunks_df embs k)
                 = take 100 (drop (k * 100) (chunk_id <$> chunks_df))).
  { unfold kth_batch, batch_of. cbn [ids]. now rewrite fmap_take, fmap_drop. }
  assert (Hsplit : NoDup (take (k * 100) (chunk_id <$> chunks_df)
                          ++ drop (k * 100) (chunk_id <$> chunks_df)))
    by now rewrite take_drop.
  apply NoDup_app in Hsplit as (_ & Hdisj & Hnd').
  rewrite bool_decide_eq_true_2.
  2:{ rewrite Hids. eapply sublist_NoDup; [exact Hnd'|apply sublist_take]. }
  cbn [collection_config collection_entries]. do 3 f_equal.
  rewrite kth_batch_entries, filter_all.
  - rewrite take_take_drop. f_equal. lia.
  - apply Forall_forall. intros e He. apply bool_decide_eq_true_2.
    intros Hin. apply entry_ids_prefix in Hin. apply (Hdisj _ Hin).
    apply (subseteq_take 100). rewrite <- Hids.
    assert (He' : entry_id e ∈ entry_id <$> batch_entries (kth_batch float_str chunks_df embs k)).
    { apply list_elem_of_fmap_2. now rewrite kth_batch_entries. }
    revert He'. unfold kth_batch at 1. rewrite batch_entries_rows.
    rewrite row_entries_ids; [|rewrite !length_take, !length_drop; lia].
    unfold kth_batch, batch_of. cbn [ids]. trivial.
Qed.

(** A call whose slice of vectors is shorter than its slice of rows is
    rejected. *)
Lemma chroma_add_short (chunks_df : list chunk_row) (embs : list vector) (k : nat)
    (name : pystr) (c : collection vector) (s : gmap pystr (collection vector)) :
  length embs - k * 100 < min 100 (length chunks_df - k * 100) ->
  s !! name = Some c ->
  collection_add chroma name (kth_batch float_str chunks_df embs k) s = (Raise (Exn "ValueError"), s).
Proof.
  intros Hshort Hs. cbn [chroma collection_add]. rewrite Hs.
  assert (Hrej : (length (ids (kth_batch float_str chunks_df embs k)) =? 0)
                 || negb (same_lengths (kth_batch float_str chunks_df embs k)) = true).
  { apply orb_true_iff. right. apply negb_true_iff.
    unfold same_lengths, kth_batch, batch_of. cbn [ids embeddings documents metadatas].
    rewrite !length_fmap, !length_take, !length_drop.
    apply andb_false_iff. left. apply andb_false_iff. left.
    apply Nat.eqb_neq. lia. }
  now rewrite Hrej.
Qed.

(** With at least as many vectors as rows and distinct chunk ids,
    [store_embeddings] returns and changes the store in one place only:
    the named collection holds the entries of the rows. *)
Lemma store_embeddings_complete (chunks_df : list chunk_row) (embs : list vector)
    (name : pystr) (s : gmap pystr (collection vector)) :
  length chunks_df <= length embs ->
  NoDup (chunk_id <$> chunks_df) ->
  store_embeddings float_str chroma chunks_df embs name s =
    (Ok name,
     <[name := {| collection_config := cosine_config;
                  collection_entries := row_entries float_str chunks_df embs |}]> s).
Proof.
  intros Hlen Hnd.
  set (all := row_entries float_str chunks_df embs).
  set (s0 := <[name := {| collection_config := cosine_config; collection_entries := [] |}]> s).
  destruct (for_in_io_inv (write_batches float_str chunks_df embs)
              (fun _ batch => collection_add chroma name batch)
              (fun i st => st = <[name := {| collection_config := cosine_config;
                                             collection_entries := take (i * 100) all |}]> s)
              s0) as (s' & Hfor & Hs').
  { reflexivity. }
  { intros i b st Hb ->. rewrite write_batches_general, list_lookup_fmap in Hb.
    destruct (seq 0 (batch_count (length chunks_df) 100) !! i) as [i'|] eqn:E; [|discriminate].
    apply lookup_seq in E as [-> Hi]. injection Hb as <-.
    apply batch_start_lt in Hi; [|lia].
    eexists. split.
    - apply chroma_add_complete; [exact Hnd|exact Hi|lia|apply lookup_insert_eq].
    - now rewrite insert_insert_eq. }
  unfold store_embeddings.
  rewrite (io_bind_ok _ _ _ _ _ (chroma_create_collection name s)).
  fold s0. rewrite (io_bind_ok _ _ _ _ _ Hfor).
  unfold mret, io_ret. f_equal. rewrite Hs'. do 3 f_equal.
  rewrite write_batches_general, length_fmap, length_seq.
  apply take_ge. subst all. unfold row_entries. rewrite length_zip_with.
  pose proof (batch_count_covers (length chunks_df) 100). lia.
Qed.

End StoreMore.

(** ** Further properties of the chunking engine *)
Section ChunkingProperties.
Import PyStr TextProcessor Examples.

Implicit Types (sent_tokenize : pystr -> result (list pystr)) (self : TextProcessor).
Implicit Types (input product_id : pystr).

(** X1: every chunk returned by [chunk_text] carries the product id it
    was called with, and its [word_count] is the number of words of its
    own text. *)
Theorem chunk_text_word_counts sent_tokenize self input product_id (c : chunk) :
  c ∈ chunk_text sent_tokenize self input product_id ->
  word_count c = length (split (text c)) /\ TextProcessor.product_id c = product_id.
Proof.
  intros Hc. destruct (is_short self input) eqn:Hshort.
  - rewrite chunk_text_short_path in Hc by exact Hshort.
    apply list_elem_of_singleton in Hc as ->. now split.
  - pose proof (run_loop_buffer_ok self product_id (tokenize sent_tokenize input)) as Hb.
    pose proof (run_loop_chunks_ok self product_id (tokenize sent_tokenize input)) as Hcs.
    rewrite Forall_forall in Hcs.
    destruct (chunk_text_split_path sent_tokenize self product_id input Hshort)
      as [(Ht & _ & E)|[(_ & _ & E)|(_ & _ & E)]]; rewrite E in Hc.
    + apply elem_of_app in Hc as [Hc|Hc].
      * destruct (Hcs c Hc) as (? & ? & _). now split.
      * apply list_elem_of_singleton in Hc as ->.
        destruct (make_chunk_ok product_id _ Hb Ht) as (? & ? & _). now split.
    + destruct (Hcs c Hc) as (? & ? & _). now split.
    + apply list_elem_of_singleton in Hc as ->. now split.
Qed.

(** X2: with a positive overlap, a chunk produced by the splitting path
    has at most [max(target_chunk_size, overlap_size + m)] words, where
    no sentence has more than [m] words; the only exception is the single
    chunk that holds the whole normalised text. *)
Theorem chunk_text_word_bound sent_tokenize self input product_id (m : nat) (c : chunk) :
  is_short self input = false ->
  (0 < overlap_size self)%Z ->
  (forall x, x ∈ tokenize sent_tokenize input -> length (split x) <= m) ->
  c ∈ chunk_text sent_tokenize self input product_id ->
  (Z.of_nat (word_count c) <= Z.max (target_chunk_size self) (overlap_size self + Z.of_nat m))%Z
  \/ text c = _clean_text input.
Proof.
  intros Hshort Hov Hm Hc.
  set (B := Z.max (target_chunk_size self) (overlap_size self + Z.of_nat m)).
  set (P := fun st : loop_state =>
              buffer_ok st /\
              (Z.of_nat (current_word_count st) <= B)%Z /\
              Forall (fun c => (Z.of_nat (word_count c) <= B)%Z) (chunks st)).
  assert (HP : P (run_loop self product_id (tokenize sent_tokenize input))).
  { unfold run_loop. apply fold_left_inv_in.
    - split; [apply buffer_ok_init|]. split; [simpl; lia|constructor].
    - intros st x Hx (Hb & Hwc & Hcs).
      split; [now apply loop_body_buffer_ok|].
      pose proof (Hm x Hx) as Hxm. rewrite <- split_strip in Hxm.
      destruct (loop_body_cases self product_id st x)
        as [(_ & ->)|[(Ht & Hex & ->)|(Ht & Hex & ->)]];
        cbn [chunks current_word_count].
      + now split.
      + split.
        * assert (Hovl : length (split (_get_overlap self (current_chunk st)))
                         <= Z.to_nat (overlap_size self)).
          { rewrite get_overlap_words. destruct (_ >? _)%Z eqn:Hlen; [|simpl; lia].
            unfold slice_from.
            assert (H0 : (- overlap_size self <? 0)%Z = true) by (apply Z.ltb_lt; lia).
            rewrite H0, length_drop. lia. }
          destruct (truthy (_get_overlap self (current_chunk st))).
          -- rewrite split_sep, length_app. lia.
          -- lia.
        * apply Forall_app. split; [exact Hcs|]. now repeat constructor.
      + split; [|exact Hcs].
        unfold exceeds in Hex. apply andb_false_iff in Hex as [Hex|Hex].
        * rewrite Z.gtb_ltb in Hex. apply Z.ltb_ge in Hex. lia.
        * destruct Hb as [Hb _]. apply truthy_false in Hex.
          rewrite Hex in Hb. simpl in Hb. lia. }
  destruct HP as (Hb & Hwc & Hcs). rewrite Forall_forall in Hcs.
  destruct (chunk_text_split_path sent_tokenize self product_id input Hshort)
    as [(Ht & _ & E)|[(_ & _ & E)|(_ & _ & E)]]; rewrite E in Hc.
  - left. apply elem_of_app in Hc as [Hc|Hc]; [now apply Hcs|].
    apply list_elem_of_singleton in Hc as ->. exact Hwc.
  - left. now apply Hcs.
  - right. now apply list_elem_of_singleton in Hc as ->.
Qed.

(** X3: with a positive overlap, a chunk that follows a chunk of more
    than [overlap_size] words begins with the last [overlap_size] words of
    that chunk, single-spaced, and a space. *)
Theorem chunk_text_consecutive_overlap sent_tokenize self input product_id
    (i : nat) (c c' : chunk) :
  (0 < overlap_size self)%Z ->
  chunk_text sent_tokenize self input product_id !! i = Some c ->
  chunk_text sent_tokenize self input product_id !! S i = Some c' ->
  Z.to_nat (overlap_size self) < length (split (text c)) ->
  exists rest,
    text c' = join (py " ") (last_words (Z.to_nat (overlap_size self)) (split (text c)))
              ++ py " " ++ rest.
Proof.
  intros Hov Hi HSi Hlen.
  set (n := Z.to_nat (overlap_size self)) in *.
  set (R := fun a b : chunk => overlaps n (text a) (text b)).
  enough (Hchain : chain R (chunk_text sent_tokenize self input product_id)).
  { exact (chain_lookup R _ i c c' Hchain Hi HSi Hlen). }
  clear i c c' Hi HSi Hlen.
  destruct (is_short self input) eqn:Hshort.
  { rewrite chunk_text_short_path by exact Hshort. exact I. }
  set (P := fun st : loop_state =>
              buffer_ok st /\ chain R (chunks st) /\
              forall c, last (chunks st) = Some c -> overlaps n (text c) (current_chunk st)).
  assert (HP : P (run_loop self product_id (tokenize sent_tokenize input))).
  { unfold run_loop. apply fold_left_inv.
    - split; [apply buffer_ok_init|]. split; [exact I|]. intros c Hc. discriminate.
    - intros st x (Hb & Hch & Hlast).
      split; [now apply loop_body_buffer_ok|].
      destruct (loop_body_cases self product_id st x)
        as [(_ & ->)|[(Ht & Hex & ->)|(Ht & Hex & ->)]];
        cbn [chunks current_chunk].
      + now split.
      + pose proof (exceeds_truthy self _ _ Hex) as Hcur.
        assert (Hstrip : strip (current_chunk st) = current_chunk st).
        { destruct Hb as [_ [E|Hs]]; [rewrite E in Hcur; discriminate|].
          now apply stripped_strip. }
        split.
        * apply chain_snoc; [exact Hch|]. intros y Hy. unfold R.
          cbn [text make_chunk]. rewrite Hstrip. now apply Hlast.
        * intros c. rewrite last_snoc. intros [= <-]. cbn [text make_chunk].
          rewrite Hstrip. intros Hlen.
          rewrite get_overlap_positive by exact Hov.
          assert (Hlt : (overlap_size self <? Z.of_nat (length (split (current_chunk st))))%Z
                        = true) by (apply Z.ltb_lt; lia).
          rewrite Hlt. fold n.
          assert (Hj : truthy (join (py " ") (last_words n (split (current_chunk st)))) = true).
          { apply join_truthy.
            - unfold last_words. intros E. apply (f_equal length) in E.
              rewrite length_drop in E. simpl in E. lia.
            - unfold last_words. apply Forall_drop, split_words_nonempty. }
          rewrite Hj. now exists (strip x).
      + split; [exact Hch|]. intros c Hc Hlen.
        destruct (Hlast c Hc Hlen) as [rest ->].
        eexists. rewrite <- !app_assoc. reflexivity. }
  destruct HP as (Hb & Hch & Hlast).
  destruct (chunk_text_split_path sent_tokenize self product_id input Hshort)
    as [(Ht & _ & E)|[(_ & _ & E)|(_ & _ & E)]]; rewrite E.
  - apply chain_snoc; [exact Hch|]. intros y Hy. unfold R. cbn [text make_chunk].
    assert (Hstrip : strip (current_chunk (run_loop self product_id
                       (tokenize sent_tokenize input))) =
                     current_chunk (run_loop self product_id (tokenize sent_tokenize input))).
    { destruct Hb as [_ [E'|Hs]]; [rewrite E' in Ht; discriminate|].
      now apply stripped_strip. }
    rewrite Hstrip. now apply Hlast.
  - exact Hch.
  - exact I.
Qed.

(** X4: when the sentences together have no more words than
    [target_chunk_size], [chunk_text] returns exactly one chunk. *)
Theorem chunk_text_single_chunk sent_tokenize self input product_id :
  (Z.of_nat (total_words (tokenize sent_tokenize input)) <= target_chunk_size self)%Z ->
  length (chunk_text sent_tokenize self input product_id) = 1.
Proof.
  intros Htotal. destruct (is_short self input) eqn:Hshort.
  { now rewrite chunk_text_short_path. }
  assert (Hloop : forall sentences st,
            chunks st = [] ->
            (Z.of_nat (current_word_count st + total_words sentences)
             <= target_chunk_size self)%Z ->
            chunks (fold_left (loop_body self product_id) sentences st) = []).
  { induction sentences as [|x l IH]; intros st Hcs Hwc; [exact Hcs|].
    cbn [fold_left]. cbn [total_words foldr] in Hwc. fold (total_words l) in Hwc.
    rewrite <- (split_strip x) in Hwc.
    destruct (loop_body_cases self product_id st x)
      as [(Ht & ->)|[(Ht & Hex & ->)|(Ht & Hex & ->)]].
    - apply IH; [exact Hcs|]. lia.
    - unfold exceeds in Hex. apply andb_true_iff in Hex as [Hex _].
      apply Z.gtb_lt in Hex. lia.
    - apply IH; cbn [chunks current_word_count]; [exact Hcs|]. lia. }
  assert (Hnone : chunks (run_loop self product_id (tokenize sent_tokenize input)) = []).
  { apply Hloop; [reflexivity|]. exact Htotal. }
  destruct (chunk_text_split_path sent_tokenize self product_id input Hshort)
    as [(_ & _ & E)|[(_ & Hne & _)|(_ & _ & E)]].
  - rewrite E, Hnone. reflexivity.
  - congruence.
  - rewrite E. reflexivity.
Qed.

(** X5: for a positive [overlap_size], [_get_overlap] returns the last
    [overlap_size] words of a text that has more words than that, and the
    empty string for any other text. *)
Theorem get_overlap_last_words self (t : pystr) :
  (0 < overlap_size self)%Z ->
  if (overlap_size self <? Z.of_nat (length (split t)))%Z
  then split (_get_overlap self t) = last_words (Z.to_nat (overlap_size self)) (split t)
       /\ length (split (_get_overlap self t)) = Z.to_nat (overlap_size self)
  else _get_overlap self t = py "".
Proof.
  intros Hov. rewrite get_overlap_positive by exact Hov.
  destruct (_ <? _)%Z eqn:Hlen; [|reflexivity].
  apply Z.ltb_lt in Hlen.
  rewrite split_join by (unfold last_words; apply Forall_drop, split_words).
  split; [reflexivity|]. unfold last_words. rewrite length_drop. lia.
Qed.

(** X6: [overlap_size = 0] does not switch the overlap off: the slice
    [words[-0:]] is the whole list, so [_get_overlap] returns every word
    of a non-blank text. *)
Theorem get_overlap_zero_keeps_all self (t : pystr) :
  overlap_size self = 0%Z ->
  split t <> [] ->
  _get_overlap self t = join (py " ") (split t) /\
  split (_get_overlap self t) = split t.
Proof.
  intros Hov Hne.
  assert (E : _get_overlap self t = join (py " ") (split t)).
  { unfold _get_overlap. destruct t as [|c t]; [now destruct Hne|].
    cbn [truthy negb]. rewrite Hov.
    assert (H : (Z.of_nat (length (split (c :: t))) >? 0)%Z = true).
    { apply Z.gtb_lt. destruct (split (c :: t)); [congruence|simpl; lia]. }
    rewrite H. reflexivity. }
  split; [exact E|]. rewrite E. apply split_join, split_words.
Qed.

End ChunkingProperties.

(** ** The chunking properties at concrete inputs *)
Section ChunkingWitnesses.
Import PyStr TextProcessor Examples Examples2.

Lemma chunk_text_word_counts_witness :
  word_count (nth 1 three_sixties_chunks no_chunk)
    = length (split (text (nth 1 three_sixties_chunks no_chunk))) /\
  TextProcessor.product_id (nth 1 three_sixties_chunks no_chunk) = py "P1".
Proof.
  apply (chunk_text_word_counts nltk_unavailable default_processor three_sixties (py "P1")
           (nth 1 three_sixties_chunks no_chunk)).
  apply list_elem_of_In. vm_compute. right. left. reflexivity.
Defined.

Lemma chunk_text_word_bound_witness :
  (Z.of_nat (word_count (nth 1 three_sixties_chunks no_chunk))
   <= Z.max (target_chunk_size default_processor)
        (overlap_size default_processor + Z.of_nat 60))%Z
  \/ text (nth 1 three_sixties_chunks no_chunk) = _clean_text three_sixties.
Proof.
  apply (chunk_text_word_bound nltk_unavailable default_processor three_sixties (py "P1") 60
           (nth 1 three_sixties_chunks no_chunk)).
  - vm_compute. reflexivity.
  - vm_compute. reflexivity.
  - intros x Hx. apply list_elem_of_In in Hx. vm_compute in Hx.
    destruct Hx as [<-|[<-|[<-|[]]]]; vm_compute; lia.
  - apply list_elem_of_In. vm_compute. right. left. reflexivity.
Defined.

Lemma chunk_text_consecutive_overlap_witness :
  exists rest,
    text (nth 1 three_sixties_chunks no_chunk) =
      join (py " ")
        (last_words (Z.to_nat (overlap_size default_processor))
           (split (text (nth 0 three_sixties_chunks no_chunk))))
      ++ py " " ++ rest.
Proof.
  apply (chunk_text_consecutive_overlap nltk_unavailable default_processor three_sixties
           (py "P1") 0 (nth 0 three_sixties_chunks no_chunk)
           (nth 1 three_sixties_chunks no_chunk)).
  - vm_compute. reflexivity.
  - vm_compute. reflexivity.
  - vm_compute. reflexivity.
  - vm_compute. lia.
Defined.

Lemma chunk_text_single_chunk_witness :
  length (chunk_text nltk_unavailable default_processor forty_words (py "P1")) = 1.
Proof.
  apply (chunk_text_single_chunk nltk_unavailable default_processor forty_words (py "P1")).
  vm_compute. intros H. discriminate H.
Defined.

Lemma get_overlap_last_words_witness :
  split (_get_overlap default_processor long_sentence)
    = last_words (Z.to_nat (overlap_size default_processor)) (split long_sentence)
  /\ length (split (_get_overlap default_processor long_sentence))
     = Z.to_nat (overlap_size default_processor).
Proof.
  apply (get_overlap_last_words default_processor long_sentence).
  vm_compute. reflexivity.
Defined.

Lemma get_overlap_zero_keeps_all_witness :
  _get_overlap no_overlap_processor (py " wireless  mouse ")
    = join (py " ") (split (py " wireless  mouse ")) /\
  split (_get_overlap no_overlap_processor (py " wireless  mouse "))
    = split (py " wireless  mouse ").
Proof.
  apply (get_overlap_zero_keeps_all no_overlap_processor (py " wireless  mouse ")).
  - reflexivity.
  - vm_compute. discriminate.
Defined.

End ChunkingWitnesses.

(** ** Properties of [_clean_text] and [_simple_sentence_split] *)
Section CleaningProperties.
Import PyStr TextProcessor Examples.

Lemma strip_idem (s : pystr) : strip (strip s) = strip s.
Proof.
  destruct (strip s) as [|c r] eqn:E; [reflexivity|].
  rewrite <- E. apply stripped_strip, strip_stripped. congruence.
Qed.

(** After the whitespace collapse every whitespace code point is a
    space. *)
Lemma collapse_spaces (s : pystr) :
  Forall (fun c => isspace c = true -> c = 32%N) (squeeze isspace 32 s).
Proof.
  apply Forall_squeeze; [reflexivity|].
  apply Forall_forall. intros c _ Hc Hc'. congruence.
Qed.

Lemma simple_split_infix (t x : pystr) :
  x ∈ _simple_sentence_split t -> infix x t.
Proof.
  unfold _simple_sentence_split. rewrite list_elem_of_In, in_map_iff.
  intros (p & <- & Hp). apply filter_In in Hp as [Hp _].
  destruct (re_split_pieces is_sentence_end t) as [_ Hall].
  rewrite Forall_forall in Hall. apply list_elem_of_In in Hp.
  destruct (Hall p Hp) as [Hin _].
  exact (infix_trans _ _ _ (strip_infix p) Hin).
Qed.

(** X7: the text returned by [_clean_text] has no surrounding
    whitespace, no ['|'], no whitespace other than the space U+0020 (so no
    newline and no tab), and no two periods in a row. *)
Theorem clean_text_normal_form (t : pystr) :
  strip (_clean_text t) = _clean_text t /\
  (forall c, c ∈ _clean_text t -> c <> 124%N /\ (isspace c = true -> c = 32%N)) /\
  contains (py "..") (_clean_text t) = false.
Proof.
  unfold _clean_text. destruct (truthy t); cbn [negb].
  2:{ split; [reflexivity|]. split; [|reflexivity].
      intros c Hc. now apply elem_of_nil in Hc. }
  split; [apply strip_idem|]. split.
  - apply Forall_forall, Forall_strip, Forall_squeeze.
    { split; [discriminate|discriminate]. }
    apply Forall_forall. intros c Hc _. revert c Hc. apply Forall_forall.
    apply Forall_replace; [repeat constructor; discriminate|].
    apply Forall_forall. intros c Hc _. revert c Hc. apply Forall_forall.
    apply Forall_replace; [repeat constructor; discriminate|].
    apply Forall_forall. intros c Hc _. revert c Hc. apply Forall_forall.
    apply Forall_replace; [repeat constructor; discriminate|].
    eapply Forall_impl; [apply collapse_spaces|].
    intros c Hc Hne. split; [exact Hne|exact Hc].
  - change (py "..") with [46%N; 46%N].
    apply (no_run_not_contains (fun c => (c =? 46)%N)); [reflexivity|reflexivity|].
    eapply no_run_infix; [apply strip_infix|]. apply squeeze_no_run.
Qed.

(** X8: the replacements of the newline and of the tab in [_clean_text]
    never apply, because the whitespace collapse before them has already
    turned both into spaces: the result is that of the collapse, the
    replacement of ['|'], the collapse of periods and the trimming
    alone. *)
Theorem clean_text_newline_is_space (t : pystr) :
  _clean_text t =
    if truthy t
    then strip (squeeze (fun c => (c =? 46)%N) 46
                  (replace 124 (py ". ") (squeeze isspace 32 t)))
    else py "".
Proof.
  unfold _clean_text. destruct (truthy t); cbn [negb]; [|reflexivity].
  assert (H : Forall (fun c => c <> 10%N /\ c <> 9%N)
                (replace 124 (py ". ") (squeeze isspace 32 t))).
  { apply Forall_replace; [repeat constructor; discriminate|].
    eapply Forall_impl; [apply collapse_spaces|].
    intros c Hc _. split; intros ->; now specialize (Hc eq_refl). }
  rewrite (replace_absent 10).
  2:{ eapply Forall_impl; [exact H|]. now intros c [? _]. }
  rewrite (replace_absent 9).
  2:{ eapply Forall_impl; [exact H|]. now intros c [_ ?]. }
  reflexivity.
Qed.

(** X9: every sentence returned by [_simple_sentence_split] is non-empty
    without surrounding whitespace, holds none of ['.'], ['!'], ['?'], and
    occurs in the text as a contiguous substring. *)
Theorem simple_sentence_split_sentences (t s : pystr) :
  s ∈ _simple_sentence_split t ->
  stripped s /\
  Forall (fun c => c <> 46%N /\ c <> 33%N /\ c <> 63%N) s /\
  infix s t.
Proof.
  intros Hs. split; [|split]; [| |now apply simple_split_infix].
  - revert Hs. unfold _simple_sentence_split. rewrite list_elem_of_In, in_map_iff.
    intros (p & <- & Hp). apply filter_In in Hp as [_ Hp].
    apply strip_stripped. now apply truthy_true.
  - revert Hs. unfold _simple_sentence_split. rewrite list_elem_of_In, in_map_iff.
    intros (p & <- & Hp). apply filter_In in Hp as [Hp _].
    destruct (re_split_pieces is_sentence_end t) as [_ Hall].
    rewrite Forall_forall in Hall. apply list_elem_of_In in Hp.
    destruct (Hall p Hp) as [_ Hcls].
    apply Forall_strip. eapply Forall_impl; [exact Hcls|].
    intros c Hc. unfold is_sentence_end in Hc.
    apply orb_false_iff in Hc as [Hc H63]. apply orb_false_iff in Hc as [H46 H33].
    apply N.eqb_neq in H46, H33, H63. now repeat split.
Qed.

(** X10: when [sent_tokenize] raises and the regular expression split is
    used, every sentence the loop receives on the splitting path occurs in
    a returned chunk, unless the final buffer has fewer than 30 words and
    the loop has closed a chunk; the sentence then lies in that buffer,
    which is not returned.  A run whose loop closes no chunk loses
    nothing. *)
Theorem chunk_text_regex_coverage sent_tokenize self input product_id (s : pystr) (e : exn) :
  sent_tokenize (_clean_text input) = Raise e ->
  is_short self input = false ->
  s ∈ loop_sentences (tokenize sent_tokenize input) ->
  let st := run_loop self product_id (tokenize sent_tokenize input) in
  (exists c, c ∈ chunk_text sent_tokenize self input product_id /\
             contains s (text c) = true)
  \/ (current_word_count st < 30 /\ chunks st <> [] /\
      contains s (current_chunk st) = true).
Proof.
  intros Hraise Hshort Hs st. subst st.
  destruct (loop_sentences_stripped _ _ Hs) as [Hstr (x & Hx & ->)].
  assert (Hclean : infix (strip x) (_clean_text input)).
  { unfold tokenize in Hx. rewrite Hraise in Hx. cbn [try_except] in Hx.
    exact (infix_trans _ _ _ (strip_infix x) (simple_split_infix _ _ Hx)). }
  assert (Hcov : covered (strip x) (run_loop self product_id (tokenize sent_tokenize input))).
  { apply fold_loop_covered; [exact Hstr|now right]. }
  destruct (chunk_text_split_path sent_tokenize self product_id input Hshort)
    as [(Ht & _ & E)|[(Hsmall & Hne & E)|(_ & Hnil & E)]].
  - left. destruct Hcov as [(c & Hin & Hc)|Hc].
    + exists c. split; [rewrite E; apply elem_of_app; now left|now apply contains_spec].
    + eexists. split; [rewrite E; apply elem_of_app; right;
                       apply list_elem_of_singleton; reflexivity|].
      cbn [text make_chunk]. apply contains_spec. now apply infix_strip.
  - destruct Hcov as [(c & Hin & Hc)|Hc].
    + left. exists c. split; [now rewrite E|now apply contains_spec].
    + right. split; [|split; [exact Hne|now apply contains_spec]].
      destruct Hsmall as [Ht|Hwc]; [|exact Hwc].
      apply truthy_false in Ht. rewrite Ht in Hc.
      destruct Hc as (a & b & Hab). destruct Hstr as [Hne' _].
      destruct a; [destruct (strip x); [congruence|discriminate]|discriminate].
  - left. eexists. split; [rewrite E; apply list_elem_of_singleton; reflexivity|].
    cbn [text make_chunk]. now apply contains_spec.
Qed.

End CleaningProperties.

(** ** Properties of [concatenate_product_text], of the chunk identifiers
    and of [process_dataframe] *)
Section AssemblyProperties.
Import PyStr TextProcessor.

Variable float_str : float -> pystr.

(** X11: the assembled text starts with the product clause whenever the
    trimmed title is non-empty, and ends with the description clause
    whenever the trimmed description is non-empty. *)
Theorem concatenate_title_first_description_last (row : product_row) :
  let title := strip (default (py "") (title row)) in
  let description := strip (default (py "") (description row)) in
  (title <> [] ->
   exists rest, concatenate_product_text float_str row = py "Product: " ++ title ++ rest) /\
  (description <> [] ->
   exists before,
     concatenate_product_text float_str row = before ++ py "Description: " ++ description).
Proof.
  cbv zeta. split.
  - intros Ht. apply truthy_true in Ht.
    unfold concatenate_product_text. cbv zeta. rewrite Ht. cbn [app].
    set (first := py "Product: " ++ strip (default (py "") (title row))).
    assert (H : forall l, exists rest : pystr, join (py ". ") (first :: l) = first ++ rest)
      by (intros l; apply join_cons_prefix).
    assert (Hgoal : forall l, exists rest : pystr,
               join (py ". ") (first :: l)
               = py "Product: " ++ strip (default (py "") (title row)) ++ rest).
    { intros l. destruct (H l) as [rest ->]. exists rest. subst first.
      now rewrite <- app_assoc. }
    repeat match goal with
           | |- context [if ?b then _ else _] => destruct b
           end; cbn [app]; apply Hgoal.
  - intros Hd. apply truthy_true in Hd.
    unfold concatenate_product_text. cbv zeta. rewrite Hd.
    apply join_snoc_suffix.
Qed.

(** X12: a brand that reads "unknown" once trimmed and lower-cased is
    left out exactly like a missing brand. *)
Theorem concatenate_unknown_brand (row : product_row) (b : pystr) :
  lower (strip b) = py "unknown" ->
  concatenate_product_text float_str
    {| title := title row; brand := Some b; category := category row;
       description := description row; price := price row |} =
  concatenate_product_text float_str
    {| title := title row; brand := None; category := category row;
       description := description row; price := price row |}.
Proof.
  intros Hb. unfold concatenate_product_text. cbv zeta.
  cbn [title brand category description price default].
  change (id b) with b. unfold eqb. rewrite Hb.
  change (strip (py "unknown")) with (py "unknown").
  change (lower (py "unknown")) with (py "unknown").
  rewrite bool_decide_eq_true_2 by reflexivity.
  cbn [negb]. rewrite !andb_false_r. reflexivity.
Qed.

Variable sent_tokenize : pystr -> result (list pystr).
Variable self : TextProcessor.

(** X13: chunk identifiers do not collide: two chunks returned for any
    two texts and products have the same identifier only if the products
    are the same and the chunks have the same index. *)
Theorem chunk_ids_distinct (input1 input2 product_id1 product_id2 : pystr) (c1 c2 : chunk) :
  c1 ∈ chunk_text sent_tokenize self input1 product_id1 ->
  c2 ∈ chunk_text sent_tokenize self input2 product_id2 ->
  chunk_id c1 = chunk_id c2 ->
  product_id1 = product_id2 /\ chunk_index c1 = chunk_index c2.
Proof.
  intros H1 H2 E.
  destruct (chunk_text_well_indexed sent_tokenize self input1 product_id1) as [_ Hid1].
  destruct (chunk_text_well_indexed sent_tokenize self input2 product_id2) as [_ Hid2].
  rewrite Forall_forall in Hid1, Hid2.
  rewrite (Hid1 c1 H1), (Hid2 c2 H2) in E.
  now apply format_chunk_id_parts.
Qed.

End AssemblyProperties.

(** ** Properties of [process_dataframe] *)
Section DataframeProperties.
Import PyStr.

Variable float_str : float -> pystr.
Variable sent_tokenize : pystr -> result (list pystr).
Variable self : TextProcessor.TextProcessor.

Abbreviation product_chunks := (Pipeline.product_chunks float_str sent_tokenize self).
Abbreviation process_dataframe := (Pipeline.process_dataframe float_str sent_tokenize self).

Lemma chunk_text_product_id (input product_id : pystr) (c : TextProcessor.chunk) :
  c ∈ TextProcessor.chunk_text sent_tokenize self input product_id ->
  TextProcessor.product_id c = product_id.
Proof.
  intros Hc. destruct (TextProcessor.is_short self input) eqn:Hshort.
  - rewrite chunk_text_short_path in Hc by exact Hshort.
    now apply list_elem_of_singleton in Hc as ->.
  - pose proof (run_loop_chunks_ok self product_id
                  (TextProcessor.tokenize sent_tokenize input)) as Hcs.
    rewrite Forall_forall in Hcs.
    destruct (chunk_text_split_path sent_tokenize self product_id input Hshort)
      as [(_ & _ & E)|[(_ & _ & E)|(_ & _ & E)]]; rewrite E in Hc.
    + apply elem_of_app in Hc as [Hc|Hc]; [now apply Hcs|].
      now apply list_elem_of_singleton in Hc as ->.
    + now apply Hcs.
    + now apply list_elem_of_singleton in Hc as ->.
Qed.

(** The rows of a product: at least one, the first with index 0. *)
Lemma product_chunks_first (p : Pipeline.product) :
  exists r rs, product_chunks p = r :: rs /\
    EmbeddingGenerator.product_id r = Pipeline.product_id p /\
    EmbeddingGenerator.chunk_index r = 0.
Proof.
  unfold Pipeline.product_chunks. cbv zeta.
  set (t := TextProcessor.concatenate_product_text float_str (Pipeline.to_dict p)).
  destruct (chunk_text_cons sent_tokenize self t (Pipeline.product_id p)) as (c & cs & E).
  pose proof (chunk_text_well_indexed sent_tokenize self t (Pipeline.product_id p)) as [Hidx _].
  assert (Hc : c ∈ TextProcessor.chunk_text sent_tokenize self t (Pipeline.product_id p))
    by (rewrite E; apply list_elem_of_here).
  apply chunk_text_product_id in Hc.
  rewrite E in Hidx |- *. injection Hidx as Hidx _.
  exists (Pipeline.chunk_data p c), (Pipeline.chunk_data p <$> cs).
  now repeat split.
Qed.

Lemma elem_of_product_chunks (p : Pipeline.product) (r : EmbeddingGenerator.chunk_row) :
  r ∈ product_chunks p ->
  exists c,
    c ∈ TextProcessor.chunk_text sent_tokenize self
          (TextProcessor.concatenate_product_text float_str (Pipeline.to_dict p))
          (Pipeline.product_id p) /\
    r = Pipeline.chunk_data p c.
Proof.
  unfold Pipeline.product_chunks. cbv zeta. intros Hr.
  apply list_elem_of_fmap in Hr as (c & -> & Hc). now exists c.
Qed.

Lemma elem_of_all_chunks (df : list Pipeline.product) (r : EmbeddingGenerator.chunk_row) :
  r ∈ flat_map product_chunks df <-> exists p, p ∈ df /\ r ∈ product_chunks p.
Proof.
  rewrite list_elem_of_In, in_flat_map. split; intros (p & Hp & Hr); exists p;
    (split; [now apply list_elem_of_In|now apply list_elem_of_In]).
Qed.

Lemma length_all_chunks (df : list Pipeline.product) :
  length df <= length (flat_map product_chunks df).
Proof.
  induction df as [|p df IH]; [reflexivity|].
  cbn [flat_map]. rewrite length_app.
  destruct (product_chunks_first p) as (r & rs & -> & _). simpl. lia.
Qed.

Lemma process_dataframe_ok (df : list Pipeline.product) :
  df <> [] -> process_dataframe df = Ok (flat_map product_chunks df).
Proof.
  intros Hne. unfold Pipeline.process_dataframe. cbv zeta.
  pose proof (length_all_chunks df) as Hlen.
  destruct (flat_map _ df) eqn:E; [|reflexivity].
  destruct df; [congruence|simpl in Hlen; lia].
Qed.

(** X14: [process_dataframe] raises [KeyError] on an empty frame.  On any
    other frame it returns at least one row per product: every product has
    a row with its id and index 0, and every row carries the id, title,
    brand, category, price and availability of a product of the frame. *)
Theorem process_dataframe_rows (df : list Pipeline.product) :
  (df = [] -> process_dataframe df = Raise (Exn "KeyError")) /\
  (df <> [] ->
   exists rows,
     process_dataframe df = Ok rows /\
     length df <= length rows /\
     (forall p, p ∈ df ->
        exists r, r ∈ rows /\
          EmbeddingGenerator.product_id r = Pipeline.product_id p /\
          EmbeddingGenerator.chunk_index r = 0) /\
     (forall r, r ∈ rows ->
        exists p, p ∈ df /\
          EmbeddingGenerator.product_id r = Pipeline.product_id p /\
          EmbeddingGenerator.original_title r = Pipeline.title p /\
          EmbeddingGenerator.brand r = Pipeline.brand p /\
          EmbeddingGenerator.category r = Pipeline.category p /\
          EmbeddingGenerator.price r = Pipeline.price p /\
          EmbeddingGenerator.availability r = Pipeline.availability p)).
Proof.
  split; [now intros ->|].
  intros Hne. exists (flat_map product_chunks df).
  split; [now apply process_dataframe_ok|]. split; [apply length_all_chunks|]. split.
  - intros p Hp. destruct (product_chunks_first p) as (r & rs & E & Hid & Hidx).
    exists r. split; [|now split].
    apply elem_of_all_chunks. exists p. split; [exact Hp|].
    rewrite E. apply list_elem_of_here.
  - intros r Hr. apply elem_of_all_chunks in Hr as (p & Hp & Hr).
    apply elem_of_product_chunks in Hr as (c & Hc & ->).
    exists p. split; [exact Hp|]. cbn. split; [|now repeat split].
    now apply chunk_text_product_id in Hc.
Qed.

Lemma all_chunks_distinct_ids (df : list Pipeline.product) :
  NoDup (Pipeline.product_id <$> df) ->
  NoDup (EmbeddingGenerator.chunk_id <$> flat_map product_chunks df).
Proof.
  intros Hnd.
  assert (Hids : forall p,
            EmbeddingGenerator.chunk_id <$> product_chunks p =
            TextProcessor.format_chunk_id (Pipeline.product_id p)
              <$> seq 0 (length (product_chunks p))).
  { intros p. unfold Pipeline.product_chunks. cbv zeta.
    rewrite length_fmap, <- list_fmap_compose.
    rewrite <- chunk_text_ids. apply list_fmap_ext. now intros. }
  induction df as [|p df IH]; [constructor|].
  cbn [flat_map]. rewrite fmap_app.
  cbn [fmap list_fmap] in Hnd. apply NoDup_cons in Hnd as [Hp Hnd].
  apply NoDup_app. split; [|split; [|now apply IH]].
  - rewrite Hids. apply NoDup_fmap_2_strong; [|apply NoDup_seq].
    intros k1 k2 _ _ E. now apply format_chunk_id_parts in E.
  - intros x Hx Hx'. rewrite Hids in Hx.
    apply list_elem_of_fmap in Hx as (k & -> & _).
    apply list_elem_of_fmap in Hx' as (r & Er & Hr).
    apply elem_of_all_chunks in Hr as (p' & Hp' & Hr).
    assert (Hr' : EmbeddingGenerator.chunk_id r ∈
                    EmbeddingGenerator.chunk_id <$> product_chunks p')
      by now apply list_elem_of_fmap_2.
    rewrite Hids, <- Er in Hr'.
    apply list_elem_of_fmap in Hr' as (k' & E & _).
    apply format_chunk_id_parts in E as [E _].
    apply Hp. rewrite E. now apply list_elem_of_fmap_2.
Qed.

(** X15: when the product ids of the frame are pairwise distinct, so are
    the chunk ids of the rows that [process_dataframe] returns. *)
Theorem process_dataframe_distinct_ids (df : list Pipeline.product)
    (rows : list EmbeddingGenerator.chunk_row) :
  NoDup (Pipeline.product_id <$> df) ->
  process_dataframe df = Ok rows ->
  NoDup (EmbeddingGenerator.chunk_id <$> rows).
Proof.
  intros Hnd Hok.
  assert (Hrows : rows = flat_map product_chunks df).
  { destruct df as [|p df']; [discriminate|].
    rewrite process_dataframe_ok in Hok by discriminate. now injection Hok. }
  subst rows. now apply all_chunks_distinct_ids.
Qed.

End DataframeProperties.

(** ** Further properties of [generate_embeddings] and [store_embeddings] *)
Section EmbeddingProperties.
Import PyStr EmbeddingGenerator.

Context {vector : Type}.
Variable encode : list pystr -> result (list vector).
Variable float_str : float -> pystr.

Lemma batch_count_gt (n b k : nat) : 0 < b -> k * b < n -> k < batch_count n b.
Proof.
  intros Hb Hk. unfold batch_count.
  pose proof (Nat.div_mod_eq (n + b - 1) b) as Hdiv.
  pose proof (Nat.mod_upper_bound (n + b - 1) b) as Hmod.
  nia.
Qed.

(** The loop of [generate_embeddings] over a positive batch size. *)
Lemma generate_embeddings_loop (texts : list pystr) (b : nat) :
  0 < b ->
  generate_embeddings encode texts (Z.of_nat b) =
    for_in ((fun k => Z.of_nat (k * b)) <$> seq 0 (batch_count (length texts) b))
      (fun embeddings i =>
         batch_embeddings ← encode (take b (drop (Z.to_nat i) texts));
         mret (embeddings ++ batch_embeddings))
      [].
Proof.
  intros Hb. unfold generate_embeddings.
  assert (Hz : (Z.of_nat b =? 0)%Z = false) by (apply Z.eqb_neq; lia).
  rewrite Hz, range_batches by exact Hb.
  assert (Hslice : forall i : Z,
            slice (Z.to_nat i) (Z.to_nat (i + Z.of_nat b)) texts
            = take b (drop (Z.to_nat i) texts) \/ (i < 0)%Z).
  { intros i. destruct (Z.ltb_spec i 0); [now right|left].
    unfold slice. f_equal. lia. }
  generalize (@nil vector).
  induction (seq 0 (batch_count (length texts) b)) as [|k l IH]; intros acc; [reflexivity|].
  cbn [fmap list_fmap for_in].
  destruct (Hslice (Z.of_nat (k * b))) as [->|H]; [|lia].
  destruct (encode _); [|reflexivity].
  cbn. apply IH.
Qed.

Lemma generate_embeddings_lengths (texts : list pystr) (b : nat) :
  (forall batch, exists vs, encode batch = Ok vs /\ length vs = length batch) ->
  0 < b ->
  exists out, generate_embeddings encode texts (Z.of_nat b) = Ok out /\
              length out = length texts.
Proof.
  intros Henc Hb. rewrite generate_embeddings_loop by exact Hb.
  destruct (for_in_result_inv
              ((fun k => Z.of_nat (k * b)) <$> seq 0 (batch_count (length texts) b))
              (fun embeddings i =>
                 batch_embeddings ← encode (take b (drop (Z.to_nat i) texts));
                 mret (embeddings ++ batch_embeddings))
              (fun k acc => length acc = min (k * b) (length texts))
              []) as (out & Hout & Hlen).
  - reflexivity.
  - intros k i acc Hi Hacc. rewrite list_lookup_fmap in Hi.
    destruct (seq 0 (batch_count (length texts) b) !! k) as [k'|] eqn:E; [|discriminate].
    apply lookup_seq in E as [-> _]. injection Hi as <-.
    destruct (Henc (take b (drop (Z.to_nat (Z.of_nat (k * b))) texts))) as (vs & -> & Hvs).
    eexists. split; [reflexivity|].
    rewrite length_app, Hacc, Hvs, length_take, length_drop, Nat2Z.id. lia.
  - exists out. split; [exact Hout|].
    rewrite Hlen, length_fmap, length_seq.
    pose proof (batch_count_covers (length texts) b Hb). lia.
Qed.

(** X16: when the model returns one vector per text of a batch, in any
    way that may depend on the batch, [generate_embeddings] returns as many
    vectors as there are texts, for every positive batch size. *)
Theorem generate_embeddings_one_per_text (texts : list pystr) (batch_size : Z) :
  (forall batch, exists vs, encode batch = Ok vs /\ length vs = length batch) ->
  (0 < batch_size)%Z ->
  exists out, generate_embeddings encode texts batch_size = Ok out /\
              length out = length texts.
Proof.
  intros Henc Hpos.
  rewrite <- (Z2Nat.id batch_size) by lia.
  apply generate_embeddings_lengths; [exact Henc|lia].
Qed.

(** X17: for a negative batch size, or for no texts and a non-zero batch
    size, [generate_embeddings] returns an empty result without calling
    the model: a negative batch size silently drops every text. *)
Theorem generate_embeddings_no_batch (texts : list pystr) (batch_size : Z) :
  (batch_size < 0)%Z \/ (texts = [] /\ batch_size <> 0%Z) ->
  generate_embeddings encode texts batch_size = Ok [].
Proof.
  intros H. unfold generate_embeddings.
  assert (Hz : (batch_size =? 0)%Z = false) by (apply Z.eqb_neq; lia).
  rewrite Hz.
  assert (Hrange : range 0 (Z.of_nat (length texts)) batch_size = []).
  { unfold range. destruct (Z.ltb_spec 0 batch_size) as [Hpos|Hneg].
    - destruct H as [H|[-> _]]; [lia|]. simpl.
      rewrite Z.div_small by lia. reflexivity.
    - assert (Hq : ((0 - Z.of_nat (length texts) - batch_size - 1) / - batch_size <= 0)%Z).
      { assert (Hlt : ((0 - Z.of_nat (length texts) - batch_size - 1) / - batch_size < 1)%Z).
        { apply Z.div_lt_upper_bound; lia. }
        lia. }
      now rewrite Z2Nat.nonpos by exact Hq. }
  now rewrite Hrange.
Qed.

(** X18: the first batch on which the model raises ends
    [generate_embeddings] with that exception: nothing is returned for the
    batches embedded before it. *)
Theorem generate_embeddings_propagates (texts : list pystr) (batch_size : Z) (k : nat) (e : exn) :
  (0 < batch_size)%Z ->
  (Z.of_nat k * batch_size < Z.of_nat (length texts))%Z ->
  (forall j, j < k ->
     exists vs, encode (take (Z.to_nat batch_size) (drop (j * Z.to_nat batch_size) texts))
                = Ok vs) ->
  encode (take (Z.to_nat batch_size) (drop (k * Z.to_nat batch_size) texts)) = Raise e ->
  generate_embeddings encode texts batch_size = Raise e.
Proof.
  intros Hpos Hk Hbefore Hraise.
  set (b := Z.to_nat batch_size) in *.
  assert (Hb : batch_size = Z.of_nat b) by (subst b; lia).
  rewrite Hb, generate_embeddings_loop by lia.
  apply (for_in_result_raise _ _ k (Z.of_nat (k * b))).
  - rewrite list_lookup_fmap, lookup_seq_lt; [reflexivity|].
    apply batch_count_gt; [lia|]. nia.
  - intros j y t Hj Hy. rewrite list_lookup_fmap in Hy.
    destruct (seq 0 (batch_count (length texts) b) !! j) as [j'|] eqn:E; [|discriminate].
    apply lookup_seq in E as [-> _]. injection Hy as <-.
    rewrite Nat2Z.id. destruct (Hbefore j Hj) as [vs ->]. now eexists.
  - intros t. now rewrite Nat2Z.id, Hraise.
Qed.

(** X19: [store_embeddings] never looks at the vectors beyond the number
    of rows: surplus vectors are ignored, with any client. *)
Theorem store_embeddings_ignores_surplus {store : Type} (self_client : client vector store)
    (chunks_df : list chunk_row) (embs : list vector) (name : pystr) :
  store_embeddings float_str self_client chunks_df embs name =
    store_embeddings float_str self_client chunks_df (take (length chunks_df) embs) name.
Proof.
  unfold store_embeddings.
  rewrite (write_batches_take float_str chunks_df embs). reflexivity.
Qed.

(** X20: with fewer vectors than rows, [store_embeddings] on the store
    raises [ValueError] at the first call that runs out of vectors, and
    leaves the collection holding only the hundreds of rows written before
    it. *)
Theorem store_embeddings_too_few_vectors (chunks_df : list chunk_row) (embs : list vector)
    (name : pystr) (s : gmap pystr (collection vector)) :
  length embs < length chunks_df ->
  NoDup (chunk_id <$> chunks_df) ->
  store_embeddings float_str chroma chunks_df embs name s =
    (Raise (Exn "ValueError"),
     <[name := {| collection_config := cosine_config;
                  collection_entries :=
                    take (length embs / 100 * 100) (row_entries float_str chunks_df embs) |}]> s).
Proof.
  intros Hlen Hnd.
  set (k := length embs / 100).
  set (all := row_entries float_str chunks_df embs).
  set (s0 := <[name := {| collection_config := cosine_config; collection_entries := [] |}]> s).
  assert (Hk : k * 100 <= length embs < k * 100 + 100).
  { subst k. pose proof (Nat.div_mod_eq (length embs) 100).
    pose proof (Nat.mod_upper_bound (length embs) 100). lia. }
  assert (Hcount : k < batch_count (length chunks_df) 100)
    by (apply batch_count_gt; lia).
  assert (Hseq : seq 0 (batch_count (length chunks_df) 100)
                 = seq 0 k ++ k :: seq (S k) (batch_count (length chunks_df) 100 - S k)).
  { replace (batch_count (length chunks_df) 100)
      with (k + S (batch_count (length chunks_df) 100 - S k)) at 1 by lia.
    rewrite seq_app. reflexivity. }
  destruct (for_in_io_inv (kth_batch float_str chunks_df embs <$> seq 0 k)
              (fun _ batch => collection_add chroma name batch)
              (fun i st => st = <[name := {| collection_config := cosine_config;
                                             collection_entries := take (i * 100) all |}]> s)
              s0) as (s1 & Hfor & Hs1).
  { reflexivity. }
  { intros i b st Hb ->. rewrite list_lookup_fmap in Hb.
    destruct (seq 0 k !! i) as [i'|] eqn:E; [|discriminate].
    apply lookup_seq in E as [-> Hi]. injection Hb as <-.
    eexists. split.
    - apply chroma_add_complete; [exact Hnd|lia|lia|apply lookup_insert_eq].
    - now rewrite insert_insert_eq. }
  rewrite length_fmap, length_seq in Hs1.
  unfold store_embeddings.
  rewrite (io_bind_ok _ _ _ _ _ (chroma_create_collection name s)). fold s0.
  rewrite write_batches_general, Hseq, fmap_app.
  assert (Hloop : for_in
            ((kth_batch float_str chunks_df embs <$> seq 0 k) ++
             (kth_batch float_str chunks_df embs
                <$> k :: seq (S k) (batch_count (length chunks_df) 100 - S k)))
            (fun _ batch => collection_add chroma name batch) tt s0
          = (Raise (Exn "ValueError"), s1)).
  { rewrite for_in_io_app, Hfor. rewrite fmap_cons.
    apply for_in_io_cons_raise.
    apply (chroma_add_short float_str chunks_df embs k name
             {| collection_config := cosine_config;
                collection_entries := take (k * 100) all |}).
    - lia.
    - rewrite Hs1. apply lookup_insert_eq. }
  rewrite (io_bind_raise _ _ _ _ _ Hloop). now rewrite Hs1.
Qed.

(** X21: whether it returns or raises, [store_embeddings] on the store
    leaves every collection with another name as it was. *)
Theorem store_embeddings_keeps_others (chunks_df : list chunk_row) (embs : list vector)
    (name other : pystr) (s : gmap pystr (collection vector)) :
  other <> name ->
  (store_embeddings float_str chroma chunks_df embs name s).2 !! other = s !! other.
Proof.
  intros Hne. unfold store_embeddings.
  rewrite (io_bind_ok _ _ _ _ _ (chroma_create_collection name s)).
  rewrite io_bind_ret_snd.
  apply (for_in_io_preserved _ _ (fun st => st !! other = s !! other)).
  - now apply lookup_insert_ne.
  - intros b st _ Hst. cbn [chroma collection_add].
    destruct (st !! name); [|exact Hst].
    destruct (_ || _); [exact Hst|].
    destruct (bool_decide _); [|exact Hst].
    cbn [snd]. now rewrite lookup_insert_ne.
Qed.

End EmbeddingProperties.

(** ** Properties of [process_chunks_to_embeddings], of the whole pipeline
    and of the validators *)
Section PipelineProperties.
Import PyStr EmbeddingGenerator.

Context {vector : Type}.
Variable encode : list pystr -> result (list vector).
Variable float_str : float -> pystr.

Lemma chroma_count_inserted (name : pystr) (c : collection vector)
    (s : gmap pystr (collection vector)) :
  Pipeline.chroma_count name (<[name := c]> s)
  = (Ok (length (collection_entries c)), <[name := c]> s).
Proof. unfold Pipeline.chroma_count. now rewrite lookup_insert_eq. Qed.

(** The run of [process_chunks_to_embeddings] once the vectors are
    there. *)
Lemma process_chunks_run (chunks_df : list chunk_row) (embs : list vector)
    (s : gmap pystr (collection vector)) :
  generate_embeddings encode (text <$> chunks_df) 32 = Ok embs ->
  length embs = length chunks_df ->
  chunks_df <> [] ->
  NoDup (chunk_id <$> chunks_df) ->
  Pipeline.process_chunks_to_embeddings encode float_str chroma Pipeline.chroma_count
    chunks_df s =
    (Ok (py "product_embeddings"),
     <[py "product_embeddings" :=
         {| collection_config := cosine_config;
            collection_entries := row_entries float_str chunks_df embs |}]> s).
Proof.
  intros Hgen Hlen Hne Hnd. unfold Pipeline.process_chunks_to_embeddings. cbv zeta.
  rewrite Hgen.
  assert (Hnz : (length (text <$> chunks_df) =? 0) = false).
  { rewrite length_fmap. apply Nat.eqb_neq. destruct chunks_df; [congruence|discriminate]. }
  rewrite Hnz.
  rewrite (io_bind_ok _ (Pipeline.lift (Ok embs)) s s embs eq_refl).
  rewrite (io_bind_ok _ (Pipeline.lift (Ok tt)) s s tt eq_refl).
  rewrite (io_bind_ok _ _ _ _ _
             (store_embeddings_complete float_str chunks_df embs (py "product_embeddings") s
                ltac:(lia) Hnd)).
  rewrite (io_bind_ok _ _ _ _ _ (chroma_count_inserted _ _ _)).
  reflexivity.
Qed.

(** X22: on an empty frame [process_chunks_to_embeddings] raises
    [ZeroDivisionError] before it touches the store, whatever the model
    and the client. *)
Theorem process_chunks_empty_frame {store : Type} (self_client : client vector store)
    (collection_count : pystr -> io store nat) (s : store) :
  Pipeline.process_chunks_to_embeddings encode float_str self_client collection_count [] s
  = (Raise (Exn "ZeroDivisionError"), s).
Proof.
  unfold Pipeline.process_chunks_to_embeddings. cbv zeta.
  change (generate_embeddings encode (text <$> []) 32) with (@Ok (list vector) []).
  rewrite (io_bind_ok _ (Pipeline.lift (Ok [])) s s [] eq_refl).
  apply io_bind_raise. reflexivity.
Qed.

(** X23: for a non-empty frame with distinct chunk ids and a model that
    returns one vector per text, [process_chunks_to_embeddings] returns
    the collection "product_embeddings", which then holds one entry per
    row, in order, and nothing else; its count is the number of rows, and
    no other collection has changed. *)
Theorem process_chunks_stores_every_row (chunks_df : list chunk_row)
    (s : gmap pystr (collection vector)) :
  chunks_df <> [] ->
  NoDup (chunk_id <$> chunks_df) ->
  (forall batch, exists vs, encode batch = Ok vs /\ length vs = length batch) ->
  exists embs s',
    generate_embeddings encode (text <$> chunks_df) 32 = Ok embs /\
    length embs = length chunks_df /\
    Pipeline.process_chunks_to_embeddings encode float_str chroma Pipeline.chroma_count
      chunks_df s = (Ok (py "product_embeddings"), s') /\
    s' = <[py "product_embeddings" :=
             {| collection_config := cosine_config;
                collection_entries := row_entries float_str chunks_df embs |}]> s /\
    Pipeline.chroma_count (py "product_embeddings") s' = (Ok (length chunks_df), s').
Proof.
  intros Hne Hnd Henc.
  destruct (generate_embeddings_lengths encode (text <$> chunks_df) 32 Henc)
    as (embs & Hgen & Hlen); [lia|].
  rewrite length_fmap in Hlen. change (Z.of_nat 32) with 32%Z in Hgen.
  exists embs. eexists. split; [exact Hgen|]. split; [exact Hlen|].
  split; [exact (process_chunks_run chunks_df embs s Hgen Hlen Hne Hnd)|].
  split; [reflexivity|].
  rewrite chroma_count_inserted. cbn [collection_entries].
  unfold row_entries. rewrite length_zip_with. do 2 f_equal. lia.
Qed.

Variable sent_tokenize : pystr -> result (list pystr).
Variable self : TextProcessor.TextProcessor.

(** X24: the two stages together.  For a non-empty product table with
    pairwise distinct product ids and a model that returns one vector per
    text, [process_dataframe] returns rows, at least one per product, and
    [process_chunks_to_embeddings] stores them all: the count of the
    collection is the number of rows. *)
Theorem pipeline_stores_every_chunk (df : list Pipeline.product)
    (s : gmap pystr (collection vector)) :
  df <> [] ->
  NoDup (Pipeline.product_id <$> df) ->
  (forall batch, exists vs, encode batch = Ok vs /\ length vs = length batch) ->
  exists rows s',
    Pipeline.process_dataframe float_str sent_tokenize self df = Ok rows /\
    length df <= length rows /\
    Pipeline.process_chunks_to_embeddings encode float_str chroma Pipeline.chroma_count
      rows s = (Ok (py "product_embeddings"), s') /\
    Pipeline.chroma_count (py "product_embeddings") s' = (Ok (length rows), s').
Proof.
  intros Hne Hnd Henc.
  set (rows := flat_map (Pipeline.product_chunks float_str sent_tokenize self) df).
  pose proof (length_all_chunks float_str sent_tokenize self df) as Hlen. fold rows in Hlen.
  assert (Hrows : rows <> []).
  { intros E. rewrite E in Hlen. destruct df; [congruence|simpl in Hlen; lia]. }
  destruct (generate_embeddings_lengths encode (text <$> rows) 32 Henc)
    as (embs & Hgen & Hembs); [lia|].
  rewrite length_fmap in Hembs. change (Z.of_nat 32) with 32%Z in Hgen.
  exists rows. eexists. split; [now apply process_dataframe_ok|]. split; [exact Hlen|].
  split.
  - apply (process_chunks_run rows embs s Hgen Hembs Hrows).
    now apply all_chunks_distinct_ids.
  - rewrite chroma_count_inserted. cbn [collection_entries].
    unfold row_entries. rewrite length_zip_with. do 2 f_equal. lia.
Qed.

End PipelineProperties.

Section ValidatorProperties.
Import PyStr ProductSchema.

(** X25: a title accepted by [validate_title] comes back with at most 200
    characters and without surrounding whitespace; when the input has at
    most 200 characters it is the trimmed input and has at least 5. *)
Theorem validate_title_accepts (v t : pystr) :
  validate_title v = Ok t ->
  length t <= 200 /\ strip t = t /\
  (length v <= 200 -> t = strip v /\ 5 <= length t).
Proof.
  unfold validate_title.
  destruct (negb (truthy v) || (length (strip v) <? 5)) eqn:Hbad; [discriminate|].
  apply orb_false_iff in Hbad as [_ Hlen]. apply Nat.ltb_ge in Hlen.
  intros [= <-]. split; [|split].
  - destruct (200 <? length v) eqn:H.
    + pose proof (length_strip (take 200 v)). rewrite length_take in *. lia.
    + apply Nat.ltb_ge in H. pose proof (length_strip v). lia.
  - apply strip_idem.
  - intros Hv. apply Nat.ltb_ge in Hv. rewrite Hv. now split.
Qed.

(** X26: [validate_description] never raises and returns at most 1000
    characters without surrounding whitespace; a missing description
    becomes "No description available". *)
Theorem validate_description_bounds (v : pystr) :
  length (validate_description v) <= 1000 /\
  strip (validate_description v) = validate_description v /\
  (v = [] -> validate_description v = py "No description available").
Proof.
  unfold validate_description. destruct v as [|c v]; cbn [truthy negb].
  - split; [vm_compute; lia|]. split; reflexivity.
  - split; [|split; [apply strip_idem|discriminate]].
    destruct (1000 <? length (c :: v)) eqn:H.
    + pose proof (length_strip (take 1000 (c :: v))). rewrite length_take in *. lia.
    + apply Nat.ltb_ge in H. pose proof (length_strip (c :: v)). lia.
Qed.

End ValidatorProperties.

(** ** The further properties at concrete inputs *)
Section MoreWitnesses.
Import PyStr Examples Examples2 StoreExamples Examples3.

Lemma simple_sentence_split_sentences_witness :
  stripped (py "How are you") /\
  Forall (fun c => c <> 46%N /\ c <> 33%N /\ c <> 63%N) (py "How are you") /\
  infix (py "How are you") (py "Hello there. How are you?  Fine!").
Proof.
  apply (simple_sentence_split_sentences (py "Hello there. How are you?  Fine!")
           (py "How are you")).
  apply list_elem_of_In. vm_compute. right. left. reflexivity.
Defined.

Lemma chunk_text_regex_coverage_witness :
  let st := TextProcessor.run_loop default_processor (py "P1")
              (TextProcessor.tokenize nltk_unavailable forty_words) in
  (exists c, c ∈ TextProcessor.chunk_text nltk_unavailable default_processor forty_words (py "P1")
             /\ contains (words_of (py "sturdy") 39 ++ py " build") (TextProcessor.text c) = true)
  \/ (TextProcessor.current_word_count st < 30 /\ TextProcessor.chunks st <> [] /\
      contains (words_of (py "sturdy") 39 ++ py " build") (TextProcessor.current_chunk st) = true).
Proof.
  apply (chunk_text_regex_coverage nltk_unavailable default_processor forty_words (py "P1")
           (words_of (py "sturdy") 39 ++ py " build") (Exn "LookupError")).
  - reflexivity.
  - vm_compute. reflexivity.
  - apply list_elem_of_In. vm_compute. left. reflexivity.
Defined.

Lemma concatenate_unknown_brand_witness :
  TextProcessor.concatenate_product_text price_str
    {| TextProcessor.title := TextProcessor.title mouse_row;
       TextProcessor.brand := Some (py " Unknown ");
       TextProcessor.category := TextProcessor.category mouse_row;
       TextProcessor.description := TextProcessor.description mouse_row;
       TextProcessor.price := TextProcessor.price mouse_row |} =
  TextProcessor.concatenate_product_text price_str
    {| TextProcessor.title := TextProcessor.title mouse_row;
       TextProcessor.brand := None;
       TextProcessor.category := TextProcessor.category mouse_row;
       TextProcessor.description := TextProcessor.description mouse_row;
       TextProcessor.price := TextProcessor.price mouse_row |}.
Proof.
  apply (concatenate_unknown_brand price_str mouse_row (py " Unknown ")).
  vm_compute. reflexivity.
Defined.

Lemma chunk_ids_distinct_witness :
  py "P1" = py "P1" /\
  TextProcessor.chunk_index (nth 1 three_sixties_chunks no_chunk)
    = TextProcessor.chunk_index (nth 1 three_sixties_chunks no_chunk).
Proof.
  apply (chunk_ids_distinct nltk_unavailable default_processor three_sixties three_sixties
           (py "P1") (py "P1")
           (nth 1 three_sixties_chunks no_chunk) (nth 1 three_sixties_chunks no_chunk)).
  - apply list_elem_of_In. vm_compute. right. left. reflexivity.
  - apply list_elem_of_In. vm_compute. right. left. reflexivity.
  - reflexivity.
Defined.

Lemma process_dataframe_distinct_ids_witness :
  NoDup (EmbeddingGenerator.chunk_id <$> sample_frame_rows).
Proof.
  apply (process_dataframe_distinct_ids price_str nltk_unavailable default_processor
           sample_frame sample_frame_rows).
  - apply (bool_decide_unpack _). vm_compute. exact I.
  - vm_compute. reflexivity.
Defined.

Lemma generate_embeddings_one_per_text_witness :
  exists out,
    EmbeddingGenerator.generate_embeddings length_encoder
      [py "mouse"; py "usb receiver"; py "two batteries"] 2 = Ok out /\
    length out = length [py "mouse"; py "usb receiver"; py "two batteries"].
Proof.
  apply (generate_embeddings_one_per_text length_encoder
           [py "mouse"; py "usb receiver"; py "two batteries"] 2).
  - intros batch. exists (length <$> batch). split; [reflexivity|apply length_fmap].
  - lia.
Defined.

Lemma generate_embeddings_no_batch_witness :
  EmbeddingGenerator.generate_embeddings length_encoder
    [py "mouse"; py "usb receiver"; py "two batteries"] (-2) = Ok [].
Proof.
  apply (generate_embeddings_no_batch length_encoder
           [py "mouse"; py "usb receiver"; py "two batteries"] (-2)).
  left. lia.
Defined.

Lemma generate_embeddings_propagates_witness :
  EmbeddingGenerator.generate_embeddings fussy_encoder
    [py "mouse"; py "usb receiver"; py ""; py "two batteries"] 2 = Raise (Exn "ValueError").
Proof.
  apply (generate_embeddings_propagates fussy_encoder
           [py "mouse"; py "usb receiver"; py ""; py "two batteries"] 2 1 (Exn "ValueError")).
  - lia.
  - vm_compute. reflexivity.
  - intros j Hj. assert (j = 0) as -> by lia. eexists. vm_compute. reflexivity.
  - vm_compute. reflexivity.
Defined.

Lemma store_embeddings_too_few_vectors_witness :
  EmbeddingGenerator.store_embeddings price_str EmbeddingGenerator.chroma (sample_rows 3)
    [10; 11] (py "product_embeddings") stale_store =
  (Raise (Exn "ValueError"),
   <[py "product_embeddings" :=
       {| EmbeddingGenerator.collection_config := EmbeddingGenerator.cosine_config;
          EmbeddingGenerator.collection_entries :=
            take (length [10; 11] / 100 * 100)
              (row_entries price_str (sample_rows 3) [10; 11]) |}]> stale_store).
Proof.
  apply (store_embeddings_too_few_vectors price_str (sample_rows 3) [10; 11]
           (py "product_embeddings") stale_store).
  - vm_compute. lia.
  - apply (bool_decide_unpack _). vm_compute. exact I.
Defined.

Lemma store_embeddings_keeps_others_witness :
  (EmbeddingGenerator.store_embeddings price_str EmbeddingGenerator.chroma (sample_rows 3)
     [10; 11; 12] (py "scratch") stale_store).2 !! py "product_embeddings"
  = stale_store !! py "product_embeddings".
Proof.
  apply (store_embeddings_keeps_others price_str (sample_rows 3) [10; 11; 12]
           (py "scratch") (py "product_embeddings") stale_store).
  vm_compute. discriminate.
Defined.

Lemma process_chunks_stores_every_row_witness :
  exists embs s',
    EmbeddingGenerator.generate_embeddings length_encoder
      (EmbeddingGenerator.text <$> sample_rows 3) 32 = Ok embs /\
    length embs = length (sample_rows 3) /\
    Pipeline.process_chunks_to_embeddings length_encoder price_str EmbeddingGenerator.chroma
      Pipeline.chroma_count (sample_rows 3) stale_store = (Ok (py "product_embeddings"), s') /\
    s' = <[py "product_embeddings" :=
             {| EmbeddingGenerator.collection_config := EmbeddingGenerator.cosine_config;
                EmbeddingGenerator.collection_entries :=
                  row_entries price_str (sample_rows 3) embs |}]> stale_store /\
    Pipeline.chroma_count (py "product_embeddings") s' = (Ok (length (sample_rows 3)), s').
Proof.
  apply (process_chunks_stores_every_row length_encoder price_str (sample_rows 3) stale_store).
  - vm_compute. discriminate.
  - apply (bool_decide_unpack _). vm_compute. exact I.
  - intros batch. exists (length <$> batch). split; [reflexivity|apply length_fmap].
Defined.

Lemma pipeline_stores_every_chunk_witness :
  exists rows s',
    Pipeline.process_dataframe price_str nltk_unavailable default_processor sample_frame
      = Ok rows /\
    length sample_frame <= length rows /\
    Pipeline.process_chunks_to_embeddings length_encoder price_str EmbeddingGenerator.chroma
      Pipeline.chroma_count rows stale_store = (Ok (py "product_embeddings"), s') /\
    Pipeline.chroma_count (py "product_embeddings") s' = (Ok (length rows), s').
Proof.
  apply (pipeline_stores_every_chunk length_encoder price_str nltk_unavailable
           default_processor sample_frame stale_store).
  - discriminate.
  - apply (bool_decide_unpack _). vm_compute. exact I.
  - intros batch. exists (length <$> batch). split; [reflexivity|apply length_fmap].
Defined.

Lemma validate_title_accepts_witness :
  length (py "Wireless Mouse") <= 200 /\
  strip (py "Wireless Mouse") = py "Wireless Mouse" /\
  (length (py "  Wireless Mouse  ") <= 200 ->
   py "Wireless Mouse" = strip (py "  Wireless Mouse  ") /\ 5 <= length (py "Wireless Mouse")).
Proof.
  apply (validate_title_accepts (py "  Wireless Mouse  ") (py "Wireless Mouse")).
  vm_compute. reflexivity.
Defined.

End MoreWitnesses.

(** ** Properties of [normalize_category] *)
Section LoaderProperties.
Import PyStr DataLoader.

Variable str_lower : pystr -> pystr.

(** A piece of the split holds no separator, so no whitespace either, and
    [strip] leaves it as it is. *)
Lemma strip_no_space (p : pystr) : Forall (fun c => isspace c = false) p -> strip p = p.
Proof.
  intros Hp. unfold strip.
  assert (Hl : lstrip p = p).
  { destruct Hp as [|c r Hc _]; [reflexivity|]. simpl. now rewrite Hc. }
  rewrite Hl. clear Hl. induction Hp as [|c r Hc _ IH]; [reflexivity|].
  cbn [rstrip]. rewrite IH, Hc. now destruct r.
Qed.

Lemma category_piece_no_space (p : pystr) :
  Forall (fun c => is_category_sep c = false) p -> Forall (fun c => isspace c = false) p.
Proof.
  intros Hp. eapply Forall_impl; [exact Hp|]. intros c Hc. unfold is_category_sep in Hc.
  now apply orb_false_iff in Hc as [_ Hc].
Qed.

Lemma apply_mapping_value (category value : pystr) (mapping : list (pystr * pystr)) :
  apply_mapping category mapping = Some value ->
  exists key, (key, value) ∈ mapping /\ contains key category = true.
Proof.
  induction mapping as [|[k v] m IH]; [discriminate|]. simpl.
  destruct (contains k category) eqn:E.
  - intros [= <-]. exists k. split; [left|exact E].
  - intros H. destruct (IH H) as (key & Hin & Hc). exists key. split; [now right|exact Hc].
Qed.

Lemma category_parts_spec (category : pystr) :
  category_parts category
  = take 3 (List.filter truthy (re_split is_category_sep category)) /\
  Forall (fun p => p <> [] /\ Forall (fun c => is_category_sep c = false) p
                   /\ infix p category)
    (category_parts category).
Proof.
  unfold category_parts. cbv zeta.
  destruct (re_split_pieces is_category_sep category) as [_ Hall].
  induction Hall as [|p ps [Hin Hsep] Hps IH].
  - split; [reflexivity|constructor].
  - pose proof (strip_no_space p (category_piece_no_space p Hsep)) as Hp.
    destruct IH as [IHeq IHall].
    cbn [List.filter]. rewrite Hp.
    destruct (truthy p) eqn:Ht.
    + assert (Hmap : map strip (List.filter (fun part => truthy (strip part)) ps)
                     = List.filter truthy ps).
      { clear -Hps. induction Hps as [|q qs [_ Hq] _ IHq]; [reflexivity|].
        pose proof (strip_no_space q (category_piece_no_space q Hq)) as E.
        cbn [List.filter]. rewrite E.
        destruct (truthy q); [cbn [map]; now rewrite E, IHq|exact IHq]. }
      cbn [map]. rewrite Hp, Hmap. split; [reflexivity|].
      apply Forall_take. constructor.
      * split; [now destruct p|now split].
      * clear -Hps. induction Hps as [|q qs [Hqi Hq] _ IHq]; [constructor|].
        cbn [List.filter]. destruct (truthy q) eqn:Hq'; [|exact IHq].
        constructor; [|exact IHq]. split; [now destruct q|now split].
    + split; [exact IHeq|exact IHall].
Qed.

(** X27: [normalize_category] never returns an empty category.  It
    returns 'general/uncategorized', or the value of a mapping key that
    occurs in the lower-cased category, or between one and three pieces of
    the lower-cased category joined by '/', each of them non-empty and
    free of the separators [|], [,], [&], [-] and whitespace.  The pieces
    are the first three non-empty ones of the split: stripping them
    changes nothing. *)
Theorem normalize_category_levels (row : gmap pystr (option pystr)) :
  let result := normalize_category str_lower row in
  result <> [] /\
  (result = py "general/uncategorized" \/
   exists category, find_category str_lower row category_cols = Some category /\
     ((exists key, (key, result) ∈ category_mapping /\ contains key category = true) \/
      exists parts,
        result = join (py "/") parts /\
        parts = take 3 (List.filter truthy (re_split is_category_sep category)) /\
        1 <= length parts <= 3 /\
        Forall (fun p => p <> [] /\ Forall (fun c => is_category_sep c = false) p
                         /\ infix p category) parts)).
Proof.
  cbv zeta. unfold normalize_category.
  destruct (find_category str_lower row category_cols) as [category|];
    [|split; [discriminate|now left]].
  destruct (truthy category); cbn [negb]; [|split; [discriminate|now left]].
  destruct (apply_mapping category category_mapping) as [value|] eqn:Hmap.
  - destruct (apply_mapping_value _ _ _ Hmap) as (key & Hin & Hc). split.
    + clear -Hin. unfold category_mapping in Hin.
      repeat (apply elem_of_cons in Hin as [Hin|Hin]; [injection Hin as _ ->; discriminate|]).
      now apply elem_of_nil in Hin.
    + right. exists category. split; [reflexivity|]. left. now exists key.
  - cbv zeta. destruct (category_parts_spec category) as [Heq Hall].
    destruct (category_parts category) as [|p ps] eqn:Hparts; [split; [discriminate|now left]|].
    split.
    + inversion Hall as [|? ? [Hp _] _]; subst.
      destruct p as [|c r]; [congruence|]. cbn [join]. now destruct ps.
    + right. exists category. split; [reflexivity|]. right. exists (p :: ps).
      split; [reflexivity|]. split; [exact Heq|]. split; [|exact Hall].
      split; [simpl; lia|]. rewrite Heq, length_take. lia.
Qed.

End LoaderProperties.
